(** * ConditionManager (pf2e-visioner, auto-visibility)

    A shallow embedding of [scripts/visibility/auto-visibility/ConditionManager.js]
    and the properties of its condition probes, of the invisibility state
    resolver and of the invisibility flag bookkeeping.

    The host (Foundry VTT and the PF2E system) owns the actors, tokens,
    documents and flag store; the embedding models the object shapes the
    class reads through optional chaining and the host calls it makes. *)

From stdpp Require Import gmap strings list fin_maps.

Local Open Scope string_scope.
Local Open Scope list_scope.
Local Open Scope nat_scope.

(** ** JavaScript values, truthiness and exceptions *)

(** The values the host accessors hand back to the class: a boolean, or
    [undefined] when a link of an optional chain is absent.  A truthy
    value that is no boolean, which [||] would hand on as it is, is not
    represented: no statement below says that a probe returns a boolean
    for every host. *)
Inductive Value : Type :=
| VUndefined
| VBool (b : bool).

(** [ToBoolean]. *)
Definition truthy (v : Value) : bool :=
  match v with
  | VUndefined => false
  | VBool b => b
  end.

(** [a || b] on values already evaluated: the first operand when it is
    truthy, the second one otherwise. *)
Definition jsOr (a b : Value) : Value :=
  if truthy a then a else b.

Infix "|||" := jsOr (at level 50, left associativity).

Inductive Exn : Type :=
| TypeError
| HostError (msg : string).

(** The result of evaluating an expression that may throw. *)
Inductive outcome (A : Type) : Type :=
| Ret (a : A)
| Throw (e : Exn).

Arguments Ret {A} a.
Arguments Throw {A} e.

#[global] Instance outcome_ret : MRet outcome := @Ret.
#[global] Instance outcome_bind : MBind outcome :=
  λ A B f m, match m with Ret a => f a | Throw e => Throw e end.

(** [a || b] with [b] evaluated only when [a] is falsy. *)
Definition orElse (a b : outcome Value) : outcome Value :=
  x ← a; if truthy x then Ret x else b.

(** [try { e } catch { }] around an assignment to a variable that holds
    [dflt]: the variable keeps [dflt] when [e] throws. *)
Definition tryCatch {A} (dflt : A) (e : outcome A) : A :=
  match e with
  | Ret a => a
  | Throw _ => dflt
  end.

(** ** Host object shapes *)

(** A host method reached through [?.]: absent, or a function of one
    string argument that returns or throws.  A property that is present
    but not callable behaves as [Some (λ _, Throw TypeError)]. *)
Abbreviation Method := (option (string → outcome Value)).

(** [obj?.method?.(arg)]. *)
Definition optCall (m : Method) (arg : string) : outcome Value :=
  match m with
  | Some f => f arg
  | None => Ret VUndefined
  end.

(** An entry of the conditions collection; a field that is missing or
    not a string is [None]. *)
Record Condition : Type := {
  slug : option string;
  key : option string;
}.

(** [actor.conditions].  [coll_has] is the collection's [has] method.
    [coll_some] is [Some entries] when the collection carries an
    Array-style [some] over [entries] (a [null] entry is [None]), and
    [None] when [conditions.some] is not callable. *)
Record ConditionsCollection : Type := {
  coll_has : Method;
  coll_some : option (list (option Condition));
}.

(** A host actor.  [system_conditions_active a s] is
    [a.system?.conditions?.[s]?.active] and [system_perception_senses a s]
    is [a.system?.perception?.senses?.[s]]; [perception_senses_has] is
    [a.perception?.senses?.has]. *)
Record Actor : Type := {
  actor_id : string;
  hasCondition : Method;
  system_conditions_active : string → Value;
  conditions : option ConditionsCollection;
  perception_senses_has : Method;
  system_perception_senses : string → Value;
}.

(** One entry of the invisibility flag record. *)
Record FlagEntry : Type := {
  wasVisible : Value;
}.

(** The invisibility flag record: observer id to entry. *)
Abbreviation InvisibilityFlags := (gmap string FlagEntry).

(** A token document: its id ([null] for a document the host has not
    stored) and its flags, by scope and then by key. *)
Record Document : Type := {
  doc_id : option string;
  doc_flags : gmap string (gmap string InvisibilityFlags);
}.

Record Token : Type := {
  tok_actor : option Actor;
  tok_document : option Document;
}.

(** ** Condition probes *)

(** [Array.prototype.some]. *)
Fixpoint array_some {A} (cb : A → outcome bool) (l : list A) : outcome bool :=
  match l with
  | [] => Ret false
  | x :: rest =>
      cb x ≫= λ b : bool, if b then Ret true else array_some cb rest
  end.

(** [s === name] for a field that may be missing. *)
Definition strictEq (field : option string) (name : string) : bool :=
  match field with
  | Some s => bool_decide (s = name)
  | None => false
  end.

(** [(condition) => condition.slug === name || condition.key === name];
    reading a property of [null] throws. *)
Definition matchesCondition (name : string) (condition : option Condition)
  : outcome bool :=
  match condition with
  | Some c => Ret (strictEq (slug c) name || strictEq (key c) name)
  | None => Throw TypeError
  end.

(** [actor.conditions.some(...)], outside of the [try]. *)
Definition scanConditions (name : string) (c : ConditionsCollection)
  : outcome bool :=
  match coll_some c with
  | Some entries => array_some (matchesCondition name) entries
  | None => Throw TypeError
  end.

(** The four strategies of a probe, named after the variables that hold
    them in the source.  The first and the third call into the host and
    may throw; the second is a chain of property reads. *)

(** [actor?.hasCondition?.(name)]. *)
Definition hasConditionMethod (name : string) (actor : option Actor)
  : outcome Value :=
  optCall (actor ≫= hasCondition) name.

(** [actor?.system?.conditions?.[name]?.active]. *)
Definition systemConditionActive (name : string) (actor : option Actor)
  : Value :=
  from_option (λ a, system_conditions_active a name) VUndefined actor.

(** [actor?.conditions?.has?.(name)]. *)
Definition conditionsHas (name : string) (actor : option Actor)
  : outcome Value :=
  optCall ((actor ≫= conditions) ≫= coll_has) name.

(** The guarded scan of lines 43-52 (and of the three copies of it). *)
Definition conditionsCollectionHas (name : string) (actor : option Actor)
  : bool :=
  match actor ≫= conditions with
  | Some c => tryCatch false (scanConditions name c)
  | None => false
  end.

(** The common body of [isBlinded], [isDazzled], [isDeafened] and of the
    first half of [isInvisibleTo]; the four differ in the condition name
    only.  The strategies are evaluated in the order of the source, all
    of them, before their results are combined. *)
Definition probeCondition (name : string) (actor : option Actor)
  : outcome Value :=
  method ← hasConditionMethod name actor;
  let active := systemConditionActive name actor in
  has ← conditionsHas name actor;
  let collectionHas := conditionsCollectionHas name actor in
  Ret (method ||| active ||| has ||| VBool collectionHas).

Definition isBlinded (observer : Token) : outcome Value :=
  probeCondition "blinded" (tok_actor observer).

Definition isDazzled (observer : Token) : outcome Value :=
  probeCondition "dazzled" (tok_actor observer).

Definition isDeafened (observer : Token) : outcome Value :=
  probeCondition "deafened" (tok_actor observer).

(** [actor?.perception?.senses?.has?.(name)]. *)
Definition sensesHas (name : string) (actor : option Actor) : outcome Value :=
  optCall (actor ≫= perception_senses_has) name.

(** [actor?.system?.perception?.senses?.[name]]. *)
Definition systemSense (name : string) (actor : option Actor) : Value :=
  from_option (λ a, system_perception_senses a name) VUndefined actor.

Definition isInvisibleTo (observer target : Token) : outcome Value :=
  hasInvisible ← probeCondition "invisible" (tok_actor target);
  if truthy hasInvisible then
    canSeeInvisible ←
      orElse (sensesHas "see-invisibility" (tok_actor observer))
             (Ret (systemSense "see-invisibility" (tok_actor observer)));
    Ret (VBool (negb (truthy canSeeInvisible)))
  else Ret (VBool false).

(** ** Invisibility state resolution *)

(** An [async] function body that awaits nothing but the caller's sneak
    predicate: either it has settled on a value, or it is suspended on
    [await hasSneakOverride(observer, target)] and continues with the
    value the promise resolves to. *)
Inductive Async (A : Type) : Type :=
| Resolved (a : A)
| AwaitSneak (observer target : option Token) (k : Value → Async A).

Arguments Resolved {A} a.
Arguments AwaitSneak {A} observer target k.

(** The caller's predicate: it resolves to a value or rejects. *)
Abbreviation SneakPredicate := (option Token → option Token → outcome Value).

(** Runs an async body against a predicate.  The second component lists
    the invocations of the predicate, in order; a rejection of the
    awaited promise rejects the whole function. *)
Fixpoint exec {A} (hasSneakOverride : SneakPredicate) (p : Async A)
  : outcome A * list (option Token * option Token) :=
  match p with
  | Resolved a => (Ret a, [])
  | AwaitSneak o t k =>
      match hasSneakOverride o t with
      | Ret v =>
          let r := exec hasSneakOverride (k v) in (r.1, (o, t) :: r.2)
      | Throw e => (Throw e, [(o, t)])
      end
  end.

(** [token?.document?.id]. *)
Definition documentId (token : option Token) : option string :=
  (token ≫= tok_document) ≫= doc_id.

(** [!id]: [null], [undefined] and the empty string are falsy. *)
Definition idMissing (id : option string) : bool :=
  match id with
  | Some s => bool_decide (s = "")
  | None => true
  end.

(** [document.flags?.['pf2e-visioner']?.invisibility]. *)
Definition invisibilityNamespace (d : Document) : option InvisibilityFlags :=
  (doc_flags d !! "pf2e-visioner") ≫= (.!! "invisibility").

(** Lines 178-179: the stored record, or [{}], and this observer's
    [wasVisible] in it.  For an id that names a property the record
    inherits from [Object.prototype] and does not own, the read gives a
    function or the prototype, whose [wasVisible] is [undefined] as for
    a missing entry. *)
Definition readWasVisible (observerId : option string)
    (target : option Token) : Value :=
  let invisibilityFlags : InvisibilityFlags :=
    default ∅ ((target ≫= tok_document) ≫= invisibilityNamespace) in
  from_option wasVisible VUndefined
    (observerId ≫= λ id, invisibilityFlags !! id).

(** The body of [getInvisibilityState]; [canSeeNormally] is the fourth
    argument as passed, [VUndefined] when it is omitted. *)
Definition getInvisibilityStateBody (observer target : option Token)
    (canSeeNormally : Value) : Async string :=
  let canSeeNormally :=
    match canSeeNormally with VUndefined => VBool false | v => v end in
  let observerId := documentId observer in
  let targetId := documentId target in
  if idMissing observerId || idMissing targetId then Resolved "undetected"
  else
    let wasVisibleWhenInvisible := readWasVisible observerId target in
    if truthy canSeeNormally then
      AwaitSneak observer target (λ sneaked,
        if truthy sneaked then Resolved "undetected" else Resolved "hidden")
    else if truthy wasVisibleWhenInvisible then
      AwaitSneak observer target (λ sneaked,
        if truthy sneaked then Resolved "undetected" else Resolved "hidden")
    else Resolved "undetected".

(** [getInvisibilityState(observer, target, hasSneakOverride,
    canSeeNormally)]: what the returned promise settles to, and the
    invocations of [hasSneakOverride] made on the way. *)
Definition getInvisibilityState (observer target : option Token)
    (hasSneakOverride : SneakPredicate) (canSeeNormally : Value)
  : outcome string * list (option Token * option Token) :=
  exec hasSneakOverride (getInvisibilityStateBody observer target canSeeNormally).

(** ** Invisibility flag bookkeeping *)

(** A call to the host's flag store, on the token at a position of
    [canvas.tokens.placeables]. *)
Inductive HostCall : Type :=
| SetFlag (token : nat) (scope key : string) (value : InvisibilityFlags)
| UnsetFlag (token : nat) (scope key : string).

Definition callToken (c : HostCall) : nat :=
  match c with
  | SetFlag i _ _ _ => i
  | UnsetFlag i _ _ => i
  end.

(** The scene: the placed tokens (a token object is identified by its
    position in [placeables]) and the flag-store calls made so far. *)
Record World : Type := {
  placeables : list Token;
  journal : list HostCall;
}.

(** Modelled from the spec: the host's per-document flag store, "a
    per-document flag store supporting namespaced get/set/unset"; the host
    method [Document#setFlag] is not part of this repository.  Setting
    stores the value under scope and key in place of what was there (the
    spec: a prior record is "overwritten by a fresh recompute, not
    merged"). *)
Definition setFlag (scope key : string) (value : InvisibilityFlags)
    (d : Document) : Document :=
  {| doc_id := doc_id d;
     doc_flags :=
       <[scope := <[key := value]> (default ∅ (doc_flags d !! scope))]>
         (doc_flags d) |}.

(** Modelled from the spec: [Document#unsetFlag] of the host, which
    "removes the entire invisibility flag namespace from the token's
    document": the key is deleted from its scope. *)
Definition unsetFlag (scope key : string) (d : Document) : Document :=
  {| doc_id := doc_id d;
     doc_flags := alter (delete key) scope (doc_flags d) |}.

(** [token.document.<call>(...)] on the token at position [i]: the
    document is replaced by what the host call leaves, and the call is
    journalled.  A token without a document makes the property read
    throw. *)
Definition onDocument (i : nat) (f : Document → Document) (call : HostCall)
    (w : World) : outcome World :=
  match placeables w !! i with
  | Some token =>
      match tok_document token with
      | Some d =>
          Ret {| placeables :=
                   <[i := {| tok_actor := tok_actor token;
                             tok_document := Some (f d) |}]> (placeables w);
                 journal := journal w ++ [call] |}
      | None => Throw TypeError
      end
  | None => Throw TypeError
  end.

(** A document id used as a property key: [null] becomes ["null"]. *)
Definition propertyKey (id : option string) : string :=
  default "null" id.

(** The names of the properties of [Object.prototype], which a plain
    object inherits.  Each holds a function, but ["__proto__"], an
    accessor that reads as the prototype object: all read as a truthy
    value that is no string. *)
Definition objectPrototypeKeys : list string :=
  [ "constructor"; "__defineGetter__"; "__defineSetter__"; "hasOwnProperty";
    "__lookupGetter__"; "__lookupSetter__"; "isPrototypeOf";
    "propertyIsEnumerable"; "toString"; "valueOf"; "__proto__";
    "toLocaleString" ].

(** What a property read on the visibility map gives: [undefined], a
    string, or a function or object inherited from [Object.prototype]. *)
Inductive PropertyValue : Type :=
| PUndefined
| PString (s : string)
| PInherited.

(** [obj[key]] on a plain object whose own properties hold strings: an
    own property first, then [Object.prototype]. *)
Definition getProperty (obj : gmap string string) (key : string)
  : PropertyValue :=
  match obj !! key with
  | Some s => PString s
  | None =>
      if bool_decide (key ∈ objectPrototypeKeys) then PInherited
      else PUndefined
  end.

(** [obj[key] = value] on a plain object created as [{}]: the key
    ["__proto__"] goes to the setter of [Object.prototype], which replaces
    the prototype and adds no own property. *)
Definition setProperty {A} (key : string) (value : A) (obj : gmap string A)
  : gmap string A :=
  if bool_decide (key = "__proto__") then obj else <[key := value]> obj.

(** [visibilityMap[observerId] || 'observed']: [undefined] and the empty
    string are falsy, an inherited function or object is truthy. *)
Definition currentVisibility (visibilityMap : gmap string string)
    (observerId : string) : PropertyValue :=
  match getProperty visibilityMap observerId with
  | PUndefined => PString "observed"
  | PString s => if bool_decide (s = "") then PString "observed" else PString s
  | PInherited => PInherited
  end.

(** [currentVisibility === 'observed' || currentVisibility === 'concealed']. *)
Definition isVisibleState (v : PropertyValue) : bool :=
  match v with
  | PString s => bool_decide (s = "observed") || bool_decide (s = "concealed")
  | _ => false
  end.

(** The loop of lines 239-249 over [canvas.tokens.placeables], from
    position [j] on; [token] is the position of the token being recorded. *)
Fixpoint collectWasVisible (token : nat) (visibilityMap : gmap string string)
    (j : nat) (others : list Token) (invisibilityFlags : InvisibilityFlags)
  : outcome InvisibilityFlags :=
  match others with
  | [] => Ret invisibilityFlags
  | otherToken :: rest =>
      if bool_decide (j = token) || negb (bool_decide (is_Some (tok_actor otherToken)))
      then collectWasVisible token visibilityMap (S j) rest invisibilityFlags
      else
        match tok_document otherToken with
        | None => Throw TypeError
        | Some d =>
            let observerId := propertyKey (doc_id d) in
            if isVisibleState (currentVisibility visibilityMap observerId)
            then collectWasVisible token visibilityMap (S j) rest
                   (setProperty observerId {| wasVisible := VBool true |}
                      invisibilityFlags)
            else collectWasVisible token visibilityMap (S j) rest invisibilityFlags
        end
  end.

(** Positions of the tokens of [l] (which starts at position [j]) that
    satisfy [p]: [placeables.filter(p)], by position. *)
Fixpoint positionsWhere (p : Token → bool) (j : nat) (l : list Token) : list nat :=
  match l with
  | [] => []
  | t :: rest =>
      if p t then j :: positionsWhere p (S j) rest
      else positionsWhere p (S j) rest
  end.

(** [for (const x of xs) { await body(x) }] over a world. *)
Fixpoint forEach (body : nat → World → outcome World) (xs : list nat)
    (w : World) : outcome World :=
  match xs with
  | [] => Ret w
  | x :: rest => body x w ≫= forEach body rest
  end.

(** [token.actor?.id === actor.id]. *)
Definition boundTo (actor : Actor) (token : Token) : bool :=
  match tok_actor token with
  | Some a => bool_decide (actor_id a = actor_id actor)
  | None => false
  end.

(** Lines 213-216: the check made by [handleInvisibilityChange]. *)
Definition hasInvisibility (actor : Actor) : outcome Value :=
  orElse (orElse (optCall (hasCondition actor) "invisible")
                 (Ret (system_conditions_active actor "invisible")))
         (optCall (conditions actor ≫= coll_has) "invisible").

Definition clearInvisibilityFlagsPrivate (token : nat) (w : World) : outcome World :=
  onDocument token (unsetFlag "pf2e-visioner" "invisibility")
    (UnsetFlag token "pf2e-visioner" "invisibility") w.

(** The public [clearInvisibilityFlags]. *)
Definition clearInvisibilityFlags (token : nat) (w : World) : outcome World :=
  clearInvisibilityFlagsPrivate token w.

Definition setInvisibilityFlags (token : nat) (flags : InvisibilityFlags)
    (w : World) : outcome World :=
  onDocument token (setFlag "pf2e-visioner" "invisibility" flags)
    (SetFlag token "pf2e-visioner" "invisibility" flags) w.

Section Bookkeeping.

(** The external visibility-map provider,
    [game.modules.get('pf2e-visioner').api.getVisibilityMap]: it returns
    an observer-id to state mapping for a token, a plain object whose own
    properties hold strings.  It lives outside of this class and is
    taken as a parameter. *)
Variable getVisibilityMap : Token → gmap string string.

(** [#recordVisibilityBeforeInvisibility(token)]. *)
Definition recordVisibilityBeforeInvisibility (token : nat) (w : World)
  : outcome World :=
  match placeables w !! token with
  | None => Throw TypeError
  | Some tok =>
      let visibilityMap := getVisibilityMap tok in
      invisibilityFlags ←
        collectWasVisible token visibilityMap 0 (placeables w) ∅;
      if bool_decide (0 < size invisibilityFlags)
      then onDocument token
             (setFlag "pf2e-visioner" "invisibility" invisibilityFlags)
             (SetFlag token "pf2e-visioner" "invisibility" invisibilityFlags) w
      else Ret w
  end.

(** The body of the loop of [handleInvisibilityChange]. *)
Definition handleToken (actor : Actor) (token : nat) (w : World)
  : outcome World :=
  invisible ← hasInvisibility actor;
  if truthy invisible
  then recordVisibilityBeforeInvisibility token w
  else clearInvisibilityFlagsPrivate token w.

Definition handleInvisibilityChange (actor : Actor) (w : World)
  : outcome World :=
  let tokens := positionsWhere (boundTo actor) 0 (placeables w) in
  forEach (handleToken actor) tokens w.

End Bookkeeping.

(** ** The singleton *)

(** The class keeps its instance in the static field [#instance]
    ([None] is [null]).  Objects are identified by the reference the
    allocator gave them; [nextRef] is the next one it hands out. *)
Record ClassState : Type := {
  static_instance : option nat;
  nextRef : nat;
}.

(** The class as loaded: no instance yet. *)
Definition classLoaded : ClassState :=
  {| static_instance := None; nextRef := 0 |}.

(** [new ConditionManager()] (lines 11-18): [this] is a fresh object;
    the constructor returns the stored instance when there is one, and
    stores [this] and returns it otherwise. *)
Definition construct (s : ClassState) : nat * ClassState :=
  let this := nextRef s in
  match static_instance s with
  | Some existing =>
      (existing, {| static_instance := Some existing; nextRef := S this |})
  | None => (this, {| static_instance := Some this; nextRef := S this |})
  end.

(** [ConditionManager.getInstance()] (lines 24-29); the result is the
    value of the static field. *)
Definition getInstance (s : ClassState) : option nat * ClassState :=
  let s' :=
    match static_instance s with
    | None =>
        let r := construct s in
        {| static_instance := Some r.1; nextRef := nextRef r.2 |}
    | Some _ => s
    end in
  (static_instance s', s').

(** A use of the class by the rest of the module. *)
Inductive ClassCall : Type := CallNew | CallGetInstance.

(** The objects a sequence of uses obtains, in order. *)
Fixpoint obtained (calls : list ClassCall) (s : ClassState) : list (option nat) :=
  match calls with
  | [] => []
  | CallNew :: rest =>
      let r := construct s in Some r.1 :: obtained rest r.2
  | CallGetInstance :: rest =>
      let r := getInstance s in r.1 :: obtained rest r.2
  end.

(** * Vocabulary of the properties *)

(** The scan strategy reports true: there is a collection and its scan
    returns true. *)
Definition scanReportsTrue (name : string) (actor : option Actor) : Prop :=
  ∃ c, actor ≫= conditions = Some c ∧ scanConditions name c = Ret true.

(** The three probes that take the observer only. *)
Inductive ObserverProbe : Type := Blinded | Dazzled | Deafened.

Definition probeSlug (p : ObserverProbe) : string :=
  match p with
  | Blinded => "blinded"
  | Dazzled => "dazzled"
  | Deafened => "deafened"
  end.

Definition runProbe (p : ObserverProbe) : Token → outcome Value :=
  match p with
  | Blinded => isBlinded
  | Dazzled => isDazzled
  | Deafened => isDeafened
  end.

(** The entry stored for this observer in the target's invisibility
    flag record, if there is one. *)
Definition flagEntryFor (observer target : option Token) : option FlagEntry :=
  id ← documentId observer;
  d ← target ≫= tok_document;
  flags ← invisibilityNamespace d;
  flags !! id.

(** What no call to the flag store changes of a token: its actor, and
    whether it has a document and of which id. *)
Definition skeleton (t : Token) : option Actor * option (option string) :=
  (tok_actor t, doc_id <$> tok_document t).

Definition withDocument (t : Token) (d : Document) : Token :=
  {| tok_actor := tok_actor t; tok_document := Some d |}.

(** What clearing does to the visited token. *)
Definition clearEffect (l : list Token) (i : nat) (tok : Token)
  : Token * list HostCall :=
  match tok_document tok with
  | Some d =>
      (withDocument tok (unsetFlag "pf2e-visioner" "invisibility" d),
       [UnsetFlag i "pf2e-visioner" "invisibility"])
  | None => (tok, [])
  end.

Definition documented (l : list Token) (i : nat) : Prop :=
  ∃ tok, l !! i = Some tok ∧ is_Some (tok_document tok).

(** Every token with a live actor has a document. *)
Definition liveDocumented (l : list Token) : Prop :=
  ∀ t, t ∈ l → is_Some (tok_actor t) → is_Some (tok_document t).

(** The state the visibility map gives for the id [k], read as line 243
    does, is "observed" or "concealed": the map has "observed",
    "concealed" or the empty string (which defaults to "observed") as its
    own entry for [k], or it has no own entry and [k] names no property
    of [Object.prototype]. *)
Definition readsAsVisible (visibilityMap : gmap string string) (k : string)
  : Prop :=
  visibilityMap !! k = Some "observed"
  ∨ visibilityMap !! k = Some "concealed"
  ∨ visibilityMap !! k = Some ""
  ∨ (visibilityMap !! k = None ∧ k ∉ objectPrototypeKeys).

(** The observer stored under key [k] when the loop of lines 239-249
    runs for the token at position [i] over [l], which starts at position
    [j]: another token, with a live actor, whose document id is [k], whose
    state reads as visible, and whose id is not ["__proto__"], a key the
    assignment of line 247 does not add. *)
Definition seenFrom (visibilityMap : gmap string string) (l : list Token)
    (i j : nat) (k : string) : Prop :=
  ∃ n other d,
    j + n ≠ i ∧ l !! n = Some other ∧ is_Some (tok_actor other)
    ∧ tok_document other = Some d ∧ propertyKey (doc_id d) = k
    ∧ readsAsVisible visibilityMap k ∧ k ≠ "__proto__".

(** The loop of [handleInvisibilityChange] can record for the token at
    position [i]. *)
Definition recordable (l : list Token) (i : nat) : Prop :=
  liveDocumented l ∧ documented l i.

Section RecordingEffect.

Variable getVisibilityMap : Token → gmap string string.

(** What recording does to the visited token. *)
Definition recordedFlags (l : list Token) (i : nat) (tok : Token)
  : InvisibilityFlags :=
  tryCatch ∅ (collectWasVisible i (getVisibilityMap tok) 0 l ∅).

Definition recordEffect (l : list Token) (i : nat) (tok : Token)
  : Token * list HostCall :=
  let flags := recordedFlags l i tok in
  match tok_document tok with
  | Some d =>
      if bool_decide (0 < size flags)
      then (withDocument tok (setFlag "pf2e-visioner" "invisibility" flags d),
            [SetFlag i "pf2e-visioner" "invisibility" flags])
      else (tok, [])
  | None => (tok, [])
  end.

End RecordingEffect.

(** Adds the token at the head of the list to a characterisation of
    the keys that does not concern it. *)
Ltac skip_head :=
  split; [intros [?|?]; [by left|by right; right]|].

(** [document.flags?.[scope]?.[key]]. *)
Definition readFlag (scope key : string) (d : Document) : option InvisibilityFlags :=
  (doc_flags d !! scope) ≫= (.!! key).

(** Two states of a token that differ at most in the invisibility
    namespace of its document. *)
Definition sameButInvisibility (t t' : Token) : Prop :=
  tok_actor t' = tok_actor t
  ∧ match tok_document t, tok_document t' with
    | Some d, Some d' =>
        doc_id d' = doc_id d
        ∧ ∀ scope key, (scope, key) ≠ ("pf2e-visioner", "invisibility") →
                       readFlag scope key d' = readFlag scope key d
    | None, None => True
    | _, _ => False
    end.

(** The resolver reaches one of its two [await]s: both identifiers are
    there, and [canSeeNormally] or the stored [wasVisible] is truthy. *)
Definition consultsSneak (observer target : option Token)
    (canSeeNormally : Value) : bool :=
  negb (idMissing (documentId observer) || idMissing (documentId target))
  && (truthy canSeeNormally
      || truthy (from_option wasVisible VUndefined (flagEntryFor observer target))).

(** A run that rewrites at most the tokens at the positions [xs], and
    of these at most the invisibility namespace, and journals calls about
    these positions only. *)
Definition touchesOnly (xs : list nat) (w w' : World) : Prop :=
  Forall2 sameButInvisibility (placeables w) (placeables w')
  ∧ (∀ j, j ∉ xs → placeables w' !! j = placeables w !! j)
  ∧ ∃ calls, journal w' = journal w ++ calls
             ∧ ∀ c, c ∈ calls → callToken c ∈ xs.

(** * Concrete host objects *)

(** An actor with no accessor of any shape. *)
Definition bareActor (id : string) : Actor :=
  {| actor_id := id;
     hasCondition := None;
     system_conditions_active := λ _, VUndefined;
     conditions := None;
     perception_senses_has := None;
     system_perception_senses := λ _, VUndefined |}.

(** A plain array of conditions: it has [some] and no [has]. *)
Definition conditionArray (slugs : list string) : ConditionsCollection :=
  {| coll_has := None;
     coll_some := Some ((λ s, Some {| slug := Some s; key := None |}) <$> slugs) |}.

(** An actor whose conditions are known through the array only. *)
Definition arrayActor (id : string) (slugs : list string) : Actor :=
  {| actor_id := id;
     hasCondition := None;
     system_conditions_active := λ _, VUndefined;
     conditions := Some (conditionArray slugs);
     perception_senses_has := None;
     system_perception_senses := λ _, VUndefined |}.

(** An actor with a working [hasCondition] over the given slugs. *)
Definition methodActor (id : string) (slugs : list string) : Actor :=
  {| actor_id := id;
     hasCondition := Some (λ s, Ret (VBool (bool_decide (s ∈ slugs))));
     system_conditions_active := λ _, VUndefined;
     conditions := None;
     perception_senses_has := None;
     system_perception_senses := λ _, VUndefined |}.

Definition emptyDocument (id : string) : Document :=
  {| doc_id := Some id; doc_flags := ∅ |}.

Definition placed (a : Actor) (id : string) : Token :=
  {| tok_actor := Some a; tok_document := Some (emptyDocument id) |}.

(** An actor whose [hasCondition] throws and whose conditions array holds
    the blinded condition. *)
Definition faultyMethodActor : Actor :=
  {| actor_id := "actor-1";
     hasCondition := Some (λ _, Throw (HostError "hasCondition failed"));
     system_conditions_active := λ _, VUndefined;
     conditions := Some (conditionArray ["blinded"]);
     perception_senses_has := None;
     system_perception_senses := λ _, VUndefined |}.

(** An actor whose [conditions.has] is present and not callable, and
    whose nested state marks it deafened. *)
Definition faultySetActor : Actor :=
  {| actor_id := "actor-2";
     hasCondition := None;
     system_conditions_active := λ s, VBool (bool_decide (s = "deafened"));
     conditions := Some {| coll_has := Some (λ _, Throw TypeError);
                           coll_some := Some [] |};
     perception_senses_has := None;
     system_perception_senses := λ _, VUndefined |}.

(** An actor whose conditions collection cannot be scanned ([some] is
    not callable) and whose [has] knows the dazzled condition. *)
Definition unscannableActor : Actor :=
  {| actor_id := "actor-3";
     hasCondition := None;
     system_conditions_active := λ _, VUndefined;
     conditions := Some {| coll_has := Some (λ s, Ret (VBool (bool_decide (s = "dazzled"))));
                           coll_some := None |};
     perception_senses_has := None;
     system_perception_senses := λ _, VUndefined |}.

(** An observer whose nested senses report see-invisibility. *)
Definition seeingActor : Actor :=
  {| actor_id := "actor-4";
     hasCondition := None;
     system_conditions_active := λ _, VUndefined;
     conditions := None;
     perception_senses_has := None;
     system_perception_senses := λ s, VBool (bool_decide (s = "see-invisibility")) |}.

(** ["token-7"] has been seen by ["token-8"] before turning invisible. *)
Definition flaggedTarget : Token :=
  {| tok_actor := Some (methodActor "actor-7" ["invisible"]);
     tok_document :=
       Some {| doc_id := Some "token-7";
               doc_flags :=
                 {[ "pf2e-visioner" :=
                      {[ "invisibility" :=
                           {[ "token-8" := {| wasVisible := VBool true |} ]} ]} ]} |} |}.

Definition watcher : Token := placed (bareActor "actor-8") "token-8".
Definition stranger : Token := placed (bareActor "actor-9") "token-9".

Definition neverSneaked : SneakPredicate := λ _ _, Ret (VBool false).
Definition alwaysSneaked : SneakPredicate := λ _ _, Ret (VBool true).

(** A token the host has not given a document yet. *)
Definition undocumented : Token :=
  {| tok_actor := Some (bareActor "actor-10"); tok_document := None |}.

(** A predicate that is not callable: invoking it throws. *)
Definition notCallable : SneakPredicate := λ _ _, Throw TypeError.

(** The invisible creature of the scene below: its conditions are an
    array, so that only the scan of the collection finds the condition. *)
Definition ghost : Actor := arrayActor "actor-5" ["invisible"].

(** The ghost's token carries a record from an earlier recording. *)
Definition ghostToken : Token :=
  {| tok_actor := Some ghost;
     tok_document :=
       Some (setFlag "pf2e-visioner" "invisibility"
               {[ "token-8" := {| wasVisible := VBool true |} ]}
               (emptyDocument "token-5")) |}.

Definition ghostScene : World :=
  {| placeables := [ghostToken; watcher]; journal := [] |}.

(** A creature that has just turned invisible, and a scene with it and
    four other tokens: one whose state toward it is recorded as hidden,
    one recorded as concealed, one with no recorded state, and one
    without an actor. *)
Definition vanished : Actor := methodActor "actor-12" ["invisible"].

Definition vanishedScene : World :=
  {| placeables :=
       [ placed vanished "token-12";
         placed (bareActor "actor-13") "token-13";
         placed (bareActor "actor-14") "token-14";
         placed (bareActor "actor-15") "token-15";
         {| tok_actor := None; tok_document := Some (emptyDocument "token-16") |} ];
     journal := [] |}.

Definition vanishedVisibility : Token → gmap string string :=
  λ _, {[ "token-13" := "hidden"; "token-14" := "concealed" ]}.

(** A creature whose invisibility has ended, with the record of an
    earlier recording still on its token. *)
Definition revealed : Actor := methodActor "actor-11" [].

Definition revealedScene : World :=
  {| placeables :=
       [ watcher;
         {| tok_actor := Some revealed;
            tok_document :=
              Some (setFlag "pf2e-visioner" "invisibility"
                      {[ "token-8" := {| wasVisible := VBool true |} ]}
                      (emptyDocument "token-11")) |} ];
     journal := [] |}.

(** An actor whose conditions array starts with a [null] entry, before
    the blinded condition. *)
Definition holedActor : Actor :=
  {| actor_id := "actor-17";
     hasCondition := None;
     system_conditions_active := λ _, VUndefined;
     conditions :=
       Some {| coll_has := None;
               coll_some := Some [None; Some {| slug := Some "blinded"; key := None |}] |};
     perception_senses_has := None;
     system_perception_senses := λ _, VUndefined |}.

(** An actor whose [hasCondition] knows the invisible condition and
    whose [conditions.has] throws. *)
Definition halfFaultyActor : Actor :=
  {| actor_id := "actor-18";
     hasCondition := Some (λ s, Ret (VBool (bool_decide (s = "invisible"))));
     system_conditions_active := λ _, VUndefined;
     conditions := Some {| coll_has := Some (λ _, Throw (HostError "has failed"));
                           coll_some := Some [] |};
     perception_senses_has := None;
     system_perception_senses := λ _, VUndefined |}.

(** An observer whose [perception.senses.has] is present and not
    callable, and whose nested senses report see-invisibility. *)
Definition faultySensesActor : Actor :=
  {| actor_id := "actor-19";
     hasCondition := None;
     system_conditions_active := λ _, VUndefined;
     conditions := None;
     perception_senses_has := Some (λ _, Throw TypeError);
     system_perception_senses := λ s, VBool (bool_decide (s = "see-invisibility")) |}.

(** An observer whose [perception.senses.has] reports see-invisibility. *)
Definition sensingActor : Actor :=
  {| actor_id := "actor-20";
     hasCondition := None;
     system_conditions_active := λ _, VUndefined;
     conditions := None;
     perception_senses_has :=
       Some (λ s, Ret (VBool (bool_decide (s = "see-invisibility"))));
     system_perception_senses := λ _, VUndefined |}.

(** A scene whose only observer has a document id that names a property
    of [Object.prototype]. *)
Definition constructorScene : World :=
  {| placeables :=
       [ placed vanished "token-12";
         placed (bareActor "actor-21") "constructor" ];
     journal := [] |}.

(** A scene whose only observer has the document id ["__proto__"]. *)
Definition protoScene : World :=
  {| placeables :=
       [ placed vanished "token-12";
         placed (bareActor "actor-22") "__proto__" ];
     journal := [] |}.

(** A scene with a token of the actor whose [hasCondition] throws. *)
Definition faultyScene : World :=
  {| placeables := [watcher; placed faultyMethodActor "token-1"];
     journal := [] |}.

(** * Properties *)

(** ** The condition probes *)

Lemma jsOr_chain (a b c : Value) (d : bool) :
  a ||| b ||| c ||| VBool d = VBool (truthy a || truthy b || truthy c || d).
Proof. by destruct a as [|[]], b as [|[]], c as [|[]], d. Qed.

(** When the two host calls return, a probe returns the boolean OR of
    the truthiness of the four strategies: always a boolean. *)
Lemma probeCondition_returns (name : string) (actor : option Actor)
    (method has : Value) :
  hasConditionMethod name actor = Ret method →
  conditionsHas name actor = Ret has →
  probeCondition name actor
  = Ret (VBool (truthy method || truthy (systemConditionActive name actor)
                || truthy has || conditionsCollectionHas name actor)).
Proof.
  intros Hm Hh. unfold probeCondition. rewrite Hm. simpl. rewrite Hh. simpl.
  by rewrite jsOr_chain.
Qed.

(** A throw of the first call leaves the probe before anything else is
    tried; so does a throw of the third one once the first has returned. *)
Lemma probeCondition_method_throws (name : string) (actor : option Actor) (e : Exn) :
  hasConditionMethod name actor = Throw e → probeCondition name actor = Throw e.
Proof. intros H. unfold probeCondition. by rewrite H. Qed.

Lemma probeCondition_has_throws (name : string) (actor : option Actor)
    (method : Value) (e : Exn) :
  hasConditionMethod name actor = Ret method →
  conditionsHas name actor = Throw e →
  probeCondition name actor = Throw e.
Proof. intros Hm Hh. unfold probeCondition. rewrite Hm. simpl. by rewrite Hh. Qed.

Lemma conditionsCollectionHas_true (name : string) (actor : option Actor) :
  conditionsCollectionHas name actor = true ↔ scanReportsTrue name actor.
Proof.
  unfold conditionsCollectionHas, scanReportsTrue. split.
  - destruct (actor ≫= conditions) as [c|]; [|done].
    intros H. exists c. split; [done|].
    destruct (scanConditions name c) as [[]|]; simpl in H; congruence.
  - intros (c & -> & ->). done.
Qed.

Lemma conditionsCollectionHas_false (name : string) (actor : option Actor) :
  conditionsCollectionHas name actor = false ↔ ¬ scanReportsTrue name actor.
Proof.
  rewrite <- conditionsCollectionHas_true.
  destruct (conditionsCollectionHas name actor); naive_solver.
Qed.

(** The scan over entries none of which is [null] finds an entry whose
    slug or key is the name. *)
Lemma strictEq_true (field : option string) (name : string) :
  strictEq field name = true ↔ field = Some name.
Proof.
  destruct field as [s|]; simpl; [|done].
  rewrite bool_decide_eq_true. naive_solver.
Qed.

Lemma matches_true (name : string) (c : Condition) :
  strictEq (slug c) name || strictEq (key c) name = true
  ↔ slug c = Some name ∨ key c = Some name.
Proof. by rewrite orb_true_iff, !strictEq_true. Qed.

Lemma array_some_matches (name : string) (cs : list Condition) :
  array_some (matchesCondition name) (Some <$> cs)
  = Ret (bool_decide (Exists (λ c, slug c = Some name ∨ key c = Some name) cs)).
Proof.
  induction cs as [|c cs IH]; [done|].
  rewrite fmap_cons. cbn [array_some matchesCondition].
  destruct (strictEq (slug c) name || strictEq (key c) name) eqn:E;
    cbn [mbind outcome_bind].
  - f_equal. symmetry. apply bool_decide_eq_true, Exists_cons_hd.
    by apply matches_true.
  - rewrite IH. f_equal. apply bool_decide_ext. rewrite Exists_cons.
    split; [by right|]. intros [H|H]; [|done].
    apply matches_true in H. congruence.
Qed.

(** A [null] entry met before any match makes the scan throw. *)
Lemma array_some_null (name : string) (cs : list Condition)
    (rest : list (option Condition)) :
  (∀ c, c ∈ cs → ¬ (slug c = Some name ∨ key c = Some name)) →
  array_some (matchesCondition name) ((Some <$> cs) ++ None :: rest)
  = Throw TypeError.
Proof.
  induction cs as [|c cs IH]; intros H; [done|].
  rewrite fmap_cons. cbn [app array_some matchesCondition].
  destruct (strictEq (slug c) name || strictEq (key c) name) eqn:E;
    cbn [mbind outcome_bind].
  - apply matches_true in E. destruct (H c); [left|done].
  - apply IH. intros c' Hc'. apply H. by right.
Qed.

Lemma runProbe_unfold (p : ObserverProbe) (observer : Token) :
  runProbe p observer = probeCondition (probeSlug p) (tok_actor observer).
Proof. by destruct p. Qed.

(** C6, as stated, fails: the scan strategy reports true for this
    observer, and [isBlinded] does not return true, because the throw of
    [hasCondition] on line 38 is outside of the [try] and leaves the
    probe. *)
Lemma isBlinded_throws_despite_scan :
  scanReportsTrue "blinded" (tok_actor (placed faultyMethodActor "token-1"))
  ∧ isBlinded (placed faultyMethodActor "token-1")
    = Throw (HostError "hasCondition failed").
Proof. split; [|reflexivity]. eexists. split; reflexivity. Qed.

(** C6 (amended): for [isBlinded], [isDazzled] and [isDeafened], once the
    [hasCondition] call and the [conditions.has] call have returned (or
    their accessor is absent), the probe returns false if each of the four
    paths reports false or is absent, and returns true if any single path
    reports true, whatever the other paths report and whether or not the
    collection scan throws. *)
Theorem probe_is_or_of_paths (p : ObserverProbe) (observer : Token)
    (method has : Value) :
  let name := probeSlug p in
  let actor := tok_actor observer in
  hasConditionMethod name actor = Ret method →
  conditionsHas name actor = Ret has →
  (truthy method = false
   ∧ truthy (systemConditionActive name actor) = false
   ∧ truthy has = false
   ∧ ¬ scanReportsTrue name actor
   → runProbe p observer = Ret (VBool false))
  ∧ (method = VBool true
     ∨ systemConditionActive name actor = VBool true
     ∨ has = VBool true
     ∨ scanReportsTrue name actor
     → runProbe p observer = Ret (VBool true)).
Proof.
  intros name actor Hm Hh. rewrite runProbe_unfold. fold name actor.
  rewrite (probeCondition_returns _ _ _ _ Hm Hh). split.
  - intros (-> & -> & -> & Hs).
    apply conditionsCollectionHas_false in Hs. by rewrite Hs.
  - intros [E|[E|[E|Hs]]]; do 2 f_equal.
    + by rewrite E.
    + rewrite E. simpl. by rewrite orb_true_r.
    + rewrite E. simpl. by rewrite orb_true_r.
    + apply conditionsCollectionHas_true in Hs. rewrite Hs.
      by rewrite orb_true_r.
Qed.

Lemma probe_is_or_of_paths_witness :
  hasConditionMethod "dazzled" (Some unscannableActor) = Ret VUndefined
  ∧ conditionsHas "dazzled" (Some unscannableActor) = Ret (VBool true)
  ∧ isDazzled (placed unscannableActor "token-3") = Ret (VBool true).
Proof.
  split; [reflexivity|]. split; [reflexivity|].
  apply (probe_is_or_of_paths Dazzled (placed unscannableActor "token-3")
           VUndefined (VBool true) eq_refl eq_refl).
  right. right. left. reflexivity.
Defined.

(** C8, as stated, fails: a [conditions.has] that is present and not
    callable is a host object shape on which [isDeafened] propagates the
    TypeError of line 98, although the nested state reports the
    condition. *)
Lemma isDeafened_propagates_exception :
  systemConditionActive "deafened" (tok_actor (placed faultySetActor "token-2"))
  = VBool true
  ∧ isDeafened (placed faultySetActor "token-2") = Throw TypeError.
Proof. split; reflexivity. Qed.

(** C8 (amended): for every condition probe, a missing actor, a missing
    accessor and an exception raised while scanning the conditions
    collection each count as a negative result of their own strategy
    only, and the remaining strategies still make up the OR.  [isBlinded],
    [isDazzled] and [isDeafened] return without an exception whenever the
    [hasCondition] and [conditions.has] calls return; [isInvisibleTo]
    returns whenever these calls on the target return and, if the target
    is found invisible, the observer's [senses.has] call returns.  An
    exception thrown by one of these host calls is propagated. *)
Theorem probe_degrades_per_strategy (observer target : Token) (p : ObserverProbe) :
  (let name := probeSlug p in
   let actor := tok_actor observer in
   (∀ method has,
      hasConditionMethod name actor = Ret method →
      conditionsHas name actor = Ret has →
      runProbe p observer
      = Ret (VBool (truthy method || truthy (systemConditionActive name actor)
                    || truthy has || conditionsCollectionHas name actor)))
   ∧ (∀ e, hasConditionMethod name actor = Throw e →
           runProbe p observer = Throw e)
   ∧ (∀ method e,
        hasConditionMethod name actor = Ret method →
        conditionsHas name actor = Throw e →
        runProbe p observer = Throw e))
  ∧ (let actor := tok_actor target in
     let viaHas :=
       optCall (tok_actor observer ≫= perception_senses_has) "see-invisibility" in
     let viaSystem :=
       from_option (λ a, system_perception_senses a "see-invisibility")
         VUndefined (tok_actor observer) in
     (∀ method has,
        hasConditionMethod "invisible" actor = Ret method →
        conditionsHas "invisible" actor = Ret has →
        let invisible :=
          truthy method || truthy (systemConditionActive "invisible" actor)
          || truthy has || conditionsCollectionHas "invisible" actor in
        (invisible = false → isInvisibleTo observer target = Ret (VBool false))
        ∧ (invisible = true → ∀ s, viaHas = Ret s →
             isInvisibleTo observer target
             = Ret (VBool (negb (truthy s || truthy viaSystem))))
        ∧ (invisible = true → ∀ e, viaHas = Throw e →
             isInvisibleTo observer target = Throw e))
     ∧ (∀ e, hasConditionMethod "invisible" actor = Throw e →
             isInvisibleTo observer target = Throw e)
     ∧ (∀ method e,
          hasConditionMethod "invisible" actor = Ret method →
          conditionsHas "invisible" actor = Throw e →
          isInvisibleTo observer target = Throw e))
  ∧ (∀ (name : string) (actor : option Actor),
       (actor = None →
        hasConditionMethod name actor = Ret VUndefined
        ∧ systemConditionActive name actor = VUndefined
        ∧ conditionsHas name actor = Ret VUndefined
        ∧ conditionsCollectionHas name actor = false)
       ∧ (actor ≫= hasCondition = None →
          hasConditionMethod name actor = Ret VUndefined)
       ∧ ((actor ≫= conditions) ≫= coll_has = None →
          conditionsHas name actor = Ret VUndefined)
       ∧ (actor ≫= conditions = None →
          conditionsCollectionHas name actor = false)
       ∧ (∀ c e, actor ≫= conditions = Some c →
                 scanConditions name c = Throw e →
                 conditionsCollectionHas name actor = false)).
Proof.
  split; [|split].
  - cbv zeta. rewrite runProbe_unfold. split; [|split].
    + intros method has Hm Hh. by apply probeCondition_returns.
    + intros e He. by apply probeCondition_method_throws.
    + intros method e Hm He. by apply (probeCondition_has_throws _ _ method).
  - cbv zeta. unfold isInvisibleTo, orElse, sensesHas, systemSense.
    split; [|split].
    + intros method has Hm Hh.
      rewrite (probeCondition_returns _ _ _ _ Hm Hh).
      cbn [mbind outcome_bind truthy]. split; [|split].
      * by intros ->.
      * intros -> s ->. cbn [mbind outcome_bind].
        by destruct (truthy s) eqn:Es; cbn [mbind outcome_bind]; rewrite ?Es.
      * by intros -> e ->.
    + intros e He. by rewrite (probeCondition_method_throws _ _ _ He).
    + intros method e Hm He.
      by rewrite (probeCondition_has_throws _ _ _ _ Hm He).
  - intros name actor.
    unfold hasConditionMethod, conditionsHas, conditionsCollectionHas.
    split; [|split; [|split; [|split]]].
    + by intros ->.
    + by intros ->.
    + by intros ->.
    + by intros ->.
    + by intros c e -> ->.
Qed.

Lemma probe_degrades_per_strategy_witness :
  isDazzled (placed unscannableActor "token-3") = Ret (VBool true)
  ∧ conditionsCollectionHas "dazzled" (Some unscannableActor) = false
  ∧ isInvisibleTo (placed faultySensesActor "token-19")
      (placed unscannableActor "token-3") = Ret (VBool false)
  ∧ isInvisibleTo (placed faultySensesActor "token-19")
      (placed (arrayActor "actor-5" ["invisible"]) "token-5") = Throw TypeError.
Proof.
  destruct (probe_degrades_per_strategy (placed unscannableActor "token-3")
              (placed unscannableActor "token-3") Dazzled)
    as ((Hret & _) & _ & Hneg).
  destruct (probe_degrades_per_strategy (placed faultySensesActor "token-19")
              (placed unscannableActor "token-3") Blinded)
    as (_ & (Hvisible & _) & _).
  destruct (probe_degrades_per_strategy (placed faultySensesActor "token-19")
              (placed (arrayActor "actor-5" ["invisible"]) "token-5") Blinded)
    as (_ & (Hinvisible & _) & _).
  split; [exact (Hret VUndefined (VBool true) eq_refl eq_refl)|].
  split.
  { destruct (Hneg "dazzled" (Some unscannableActor)) as (_ & _ & _ & _ & Hscan).
    exact (Hscan _ TypeError eq_refl eq_refl). }
  split.
  - destruct (Hvisible VUndefined (VBool false) eq_refl eq_refl) as (H & _).
    apply H. reflexivity.
  - destruct (Hinvisible VUndefined VUndefined eq_refl eq_refl) as (_ & _ & H).
    apply (H eq_refl TypeError). reflexivity.
Defined.

(** C7, as stated, fails: the target is invisible and the nested shape
    reports see-invisibility on the observer's actor, yet [isInvisibleTo]
    does not return false: the [senses.has] of this observer is present
    and not callable, and the TypeError of line 148 leaves the probe. *)
Lemma isInvisibleTo_throws_despite_sense :
  probeCondition "invisible" (tok_actor ghostToken) = Ret (VBool true)
  ∧ system_perception_senses faultySensesActor "see-invisibility" = VBool true
  ∧ isInvisibleTo (placed faultySensesActor "token-19") ghostToken
    = Throw TypeError.
Proof. repeat split. Qed.

(** C7 (amended): when the four-strategy probe on the target returns,
    [isInvisibleTo] is false whenever it finds no invisible condition,
    whatever the observer is; when it finds the condition and the
    observer's [senses.has] call returns (or the accessor is absent), the
    result is false if that call or the nested [system.perception.senses]
    shape reports see-invisibility and true if neither does.  An
    exception thrown by the probe on the target, or by [senses.has] once
    the target is found invisible, is propagated. *)
Theorem isInvisibleTo_decision (observer target : Token) :
  let viaHas :=
    optCall (tok_actor observer ≫= perception_senses_has) "see-invisibility" in
  let viaSystem :=
    from_option (λ a, system_perception_senses a "see-invisibility")
      VUndefined (tok_actor observer) in
  (∀ hasInvisible,
     probeCondition "invisible" (tok_actor target) = Ret hasInvisible →
     (truthy hasInvisible = false →
      isInvisibleTo observer target = Ret (VBool false))
     ∧ (truthy hasInvisible = true →
        (∀ s, viaHas = Ret s →
           (truthy s = true ∨ truthy viaSystem = true →
            isInvisibleTo observer target = Ret (VBool false))
           ∧ (truthy s = false ∧ truthy viaSystem = false →
              isInvisibleTo observer target = Ret (VBool true)))
        ∧ (∀ e, viaHas = Throw e →
             isInvisibleTo observer target = Throw e)))
  ∧ (∀ e, probeCondition "invisible" (tok_actor target) = Throw e →
          isInvisibleTo observer target = Throw e).
Proof.
  cbv zeta. unfold isInvisibleTo, orElse, sensesHas, systemSense. split.
  - intros hasInvisible ->. cbn [mbind outcome_bind]. split.
    + by intros ->.
    + intros ->. split.
      * intros s ->. cbn [mbind outcome_bind]. split.
        -- intros [E|E].
           ++ rewrite E. cbn [mbind outcome_bind]. by rewrite E.
           ++ destruct (truthy s) eqn:E'; cbn [mbind outcome_bind];
                [by rewrite E'|by rewrite E].
        -- intros [E1 E2]. rewrite E1. cbn [mbind outcome_bind].
           by rewrite E2.
      * by intros e ->.
  - by intros e ->.
Qed.

Lemma isInvisibleTo_decision_witness :
  isInvisibleTo (placed sensingActor "token-20") ghostToken = Ret (VBool false)
  ∧ isInvisibleTo (placed seeingActor "token-4") ghostToken = Ret (VBool false)
  ∧ isInvisibleTo (placed (bareActor "actor-6") "token-6") ghostToken
    = Ret (VBool true)
  ∧ isInvisibleTo (placed faultySensesActor "token-19") watcher
    = Ret (VBool false).
Proof.
  split; [|split; [|split]].
  - destruct (isInvisibleTo_decision (placed sensingActor "token-20") ghostToken)
      as [H _].
    destruct (H (VBool true) eq_refl) as [_ Hinv].
    destruct (Hinv eq_refl) as [Hret _].
    destruct (Hret (VBool true) eq_refl) as [Hsees _].
    apply Hsees. left. reflexivity.
  - destruct (isInvisibleTo_decision (placed seeingActor "token-4") ghostToken)
      as [H _].
    destruct (H (VBool true) eq_refl) as [_ Hinv].
    destruct (Hinv eq_refl) as [Hret _].
    destruct (Hret VUndefined eq_refl) as [Hsees _].
    apply Hsees. right. reflexivity.
  - destruct (isInvisibleTo_decision (placed (bareActor "actor-6") "token-6")
                ghostToken) as [H _].
    destruct (H (VBool true) eq_refl) as [_ Hinv].
    destruct (Hinv eq_refl) as [Hret _].
    destruct (Hret VUndefined eq_refl) as [_ Hblind].
    apply Hblind. split; reflexivity.
  - destruct (isInvisibleTo_decision (placed faultySensesActor "token-19") watcher)
      as [H _].
    destruct (H (VBool false) eq_refl) as [Hnot _].
    apply Hnot. reflexivity.
Defined.

(** ** The invisibility state resolver *)

(** A reference resolves to a document identifier unless a link of
    [ref?.document?.id] is missing or the id is the empty string. *)
Lemma idMissing_documentId (token : option Token) :
  idMissing (documentId token) = false
  ↔ ∃ t d id, token = Some t ∧ tok_document t = Some d
              ∧ doc_id d = Some id ∧ id ≠ "".
Proof.
  unfold idMissing, documentId. split.
  - destruct token as [t|]; [|done]. simpl.
    destruct (tok_document t) as [d|] eqn:Hd; [|done]. simpl.
    destruct (doc_id d) as [id|] eqn:Hid; [|done].
    intros H%bool_decide_eq_false. by exists t, d, id.
  - intros (t & d & id & -> & Hd & Hid & Hne). simpl. rewrite Hd. simpl.
    rewrite Hid. by apply bool_decide_eq_false.
Qed.

Lemma readWasVisible_entry (observer target : option Token) :
  readWasVisible (documentId observer) target
  = from_option wasVisible VUndefined (flagEntryFor observer target).
Proof.
  unfold readWasVisible, flagEntryFor.
  destruct (documentId observer) as [id|]; [|done]. simpl.
  destruct (target ≫= tok_document) as [d|]; simpl; [|done].
  by destruct (invisibilityNamespace d).
Qed.

Lemma canSeeNormally_default (c : Value) :
  truthy (match c with VUndefined => VBool false | v => v end) = truthy c.
Proof. by destruct c. Qed.

(** The three shapes the body can take. *)
Lemma getInvisibilityStateBody_cases (observer target : option Token)
    (canSeeNormally : Value) :
  getInvisibilityStateBody observer target canSeeNormally
  = if idMissing (documentId observer) || idMissing (documentId target)
    then Resolved "undetected"
    else if truthy canSeeNormally
           || truthy (from_option wasVisible VUndefined
                        (flagEntryFor observer target))
    then AwaitSneak observer target (λ sneaked,
           if truthy sneaked then Resolved "undetected" else Resolved "hidden")
    else Resolved "undetected".
Proof.
  unfold getInvisibilityStateBody.
  rewrite canSeeNormally_default, readWasVisible_entry.
  destruct (idMissing _ || idMissing _); [done|].
  by destruct (truthy canSeeNormally), (truthy _).
Qed.

Lemma exec_await_resolves (observer target : option Token)
    (hasSneakOverride : SneakPredicate) (sneaked : Value) :
  hasSneakOverride observer target = Ret sneaked →
  exec hasSneakOverride
    (AwaitSneak observer target (λ sneaked,
       if truthy sneaked then Resolved "undetected" else Resolved "hidden"))
  = (Ret (if truthy sneaked then "undetected" else "hidden"),
     [(observer, target)]).
Proof. intros H. simpl. rewrite H. by destruct (truthy sneaked). Qed.

(** C3: when observer and target both resolve to document identifiers
    and [canSeeNormally] is true, [getInvisibilityState] resolves to
    "undetected" if the sneak predicate resolves true and to "hidden" if
    it resolves false, whatever flags the target's document stores. *)
Theorem getInvisibilityState_can_see (observer target : option Token)
    (hasSneakOverride : SneakPredicate) (sneaked : bool) :
  idMissing (documentId observer) = false →
  idMissing (documentId target) = false →
  hasSneakOverride observer target = Ret (VBool sneaked) →
  (getInvisibilityState observer target hasSneakOverride (VBool true)).1
  = Ret (if sneaked then "undetected" else "hidden").
Proof.
  intros Ho Ht Hs. unfold getInvisibilityState.
  rewrite getInvisibilityStateBody_cases, Ho, Ht. simpl orb. cbv iota.
  by rewrite (exec_await_resolves _ _ _ _ Hs).
Qed.

Lemma getInvisibilityState_can_see_witness :
  idMissing (documentId (Some stranger)) = false
  ∧ idMissing (documentId (Some flaggedTarget)) = false
  ∧ (getInvisibilityState (Some stranger) (Some flaggedTarget)
       neverSneaked (VBool true)).1 = Ret "hidden".
Proof.
  split; [reflexivity|]. split; [reflexivity|].
  exact (getInvisibilityState_can_see (Some stranger) (Some flaggedTarget)
           neverSneaked false eq_refl eq_refl eq_refl).
Defined.

(** C4: when observer and target both resolve to document identifiers
    and [canSeeNormally] is false (or omitted), [getInvisibilityState]
    resolves to "hidden" if the stored record marks this observer as
    [wasVisible] and the sneak predicate resolves false, to "undetected"
    if the record marks it and the predicate resolves true, and to
    "undetected" if the record holds no [wasVisible] mark for this
    observer. *)
Theorem getInvisibilityState_cannot_see (observer target : option Token)
    (hasSneakOverride : SneakPredicate) (canSeeNormally : Value) :
  idMissing (documentId observer) = false →
  idMissing (documentId target) = false →
  truthy canSeeNormally = false →
  (∀ (e : FlagEntry) (sneaked : bool),
     flagEntryFor observer target = Some e →
     truthy (wasVisible e) = true →
     hasSneakOverride observer target = Ret (VBool sneaked) →
     (getInvisibilityState observer target hasSneakOverride canSeeNormally).1
     = Ret (if sneaked then "undetected" else "hidden"))
  ∧ ((∀ e, flagEntryFor observer target = Some e → truthy (wasVisible e) = false) →
     (getInvisibilityState observer target hasSneakOverride canSeeNormally).1
     = Ret "undetected").
Proof.
  intros Ho Ht Hc. unfold getInvisibilityState.
  rewrite getInvisibilityStateBody_cases, Ho, Ht, Hc. simpl orb. cbv iota.
  split.
  - intros e sneaked He Hw Hs. rewrite He. simpl from_option. rewrite Hw.
    by rewrite (exec_await_resolves _ _ _ _ Hs).
  - intros H. destruct (flagEntryFor observer target) as [e|]; simpl; [|done].
    by rewrite (H e eq_refl).
Qed.

Lemma getInvisibilityState_cannot_see_witness :
  flagEntryFor (Some watcher) (Some flaggedTarget)
  = Some {| wasVisible := VBool true |}
  ∧ flagEntryFor (Some stranger) (Some flaggedTarget) = None
  ∧ (getInvisibilityState (Some watcher) (Some flaggedTarget)
       neverSneaked (VBool false)).1 = Ret "hidden"
  ∧ (getInvisibilityState (Some watcher) (Some flaggedTarget)
       alwaysSneaked (VBool false)).1 = Ret "undetected"
  ∧ (getInvisibilityState (Some stranger) (Some flaggedTarget)
       neverSneaked VUndefined).1 = Ret "undetected".
Proof.
  split; [reflexivity|]. split; [reflexivity|].
  split; [|split].
  - destruct (getInvisibilityState_cannot_see (Some watcher) (Some flaggedTarget)
                neverSneaked (VBool false) eq_refl eq_refl eq_refl) as [H _].
    exact (H _ false eq_refl eq_refl eq_refl).
  - destruct (getInvisibilityState_cannot_see (Some watcher) (Some flaggedTarget)
                alwaysSneaked (VBool false) eq_refl eq_refl eq_refl) as [H _].
    exact (H _ true eq_refl eq_refl eq_refl).
  - destruct (getInvisibilityState_cannot_see (Some stranger) (Some flaggedTarget)
                neverSneaked VUndefined eq_refl eq_refl eq_refl) as [_ H].
    apply H. intros e He. discriminate He.
Defined.

(** C5: if the observer or the target does not resolve to a document
    identifier, [getInvisibilityState] resolves to "undetected" for every
    predicate and every [canSeeNormally]; it does not reject, and the
    predicate is not invoked. *)
Theorem getInvisibilityState_missing_identifier (observer target : option Token)
    (hasSneakOverride : SneakPredicate) (canSeeNormally : Value) :
  idMissing (documentId observer) = true
  ∨ idMissing (documentId target) = true →
  getInvisibilityState observer target hasSneakOverride canSeeNormally
  = (Ret "undetected", []).
Proof.
  intros H. unfold getInvisibilityState.
  rewrite getInvisibilityStateBody_cases.
  assert (idMissing (documentId observer) || idMissing (documentId target) = true)
    as -> by (apply orb_true_iff; exact H).
  reflexivity.
Qed.

Lemma getInvisibilityState_missing_identifier_witness :
  idMissing (documentId (Some undocumented)) = true
  ∧ getInvisibilityState (Some undocumented) (Some flaggedTarget)
      notCallable (VBool true) = (Ret "undetected", [])
  ∧ getInvisibilityState (Some watcher) None
      notCallable (VBool true) = (Ret "undetected", []).
Proof.
  split; [reflexivity|]. split.
  - apply (getInvisibilityState_missing_identifier (Some undocumented)
             (Some flaggedTarget) notCallable (VBool true)).
    left. reflexivity.
  - apply (getInvisibilityState_missing_identifier (Some watcher) None
             notCallable (VBool true)).
    right. reflexivity.
Defined.

(** C10: on the missing-identifier branch and on the final default
    branch (identifiers present, [canSeeNormally] false, no [wasVisible]
    mark for this observer) the body settles on "undetected" without
    awaiting the sneak predicate: no invocation is made, and any two
    predicates give the same result. *)
Theorem sneak_predicate_not_consulted (observer target : option Token)
    (canSeeNormally : Value) :
  (idMissing (documentId observer) = true
   ∨ idMissing (documentId target) = true)
  ∨ (idMissing (documentId observer) = false
     ∧ idMissing (documentId target) = false
     ∧ truthy canSeeNormally = false
     ∧ ∀ e, flagEntryFor observer target = Some e → truthy (wasVisible e) = false) →
  getInvisibilityStateBody observer target canSeeNormally = Resolved "undetected"
  ∧ ∀ p1 p2 : SneakPredicate,
      getInvisibilityState observer target p1 canSeeNormally
      = getInvisibilityState observer target p2 canSeeNormally
      ∧ (getInvisibilityState observer target p1 canSeeNormally).2 = [].
Proof.
  intros H.
  assert (getInvisibilityStateBody observer target canSeeNormally
          = Resolved "undetected") as Hbody.
  { rewrite getInvisibilityStateBody_cases.
    destruct H as [H|(Ho & Ht & Hc & Hw)].
    - assert (idMissing (documentId observer) || idMissing (documentId target) = true)
        as -> by (apply orb_true_iff; exact H).
      reflexivity.
    - rewrite Ho, Ht, Hc. simpl orb.
      destruct (flagEntryFor observer target) as [e|]; simpl; [|done].
      by rewrite (Hw e eq_refl). }
  split; [exact Hbody|].
  intros p1 p2. unfold getInvisibilityState. rewrite Hbody. done.
Qed.

Lemma sneak_predicate_not_consulted_witness :
  (idMissing (documentId (Some stranger)) = false
   ∧ idMissing (documentId (Some flaggedTarget)) = false
   ∧ flagEntryFor (Some stranger) (Some flaggedTarget) = None)
  ∧ getInvisibilityState (Some stranger) (Some flaggedTarget)
      alwaysSneaked (VBool false)
    = getInvisibilityState (Some stranger) (Some flaggedTarget)
        notCallable (VBool false)
  ∧ (getInvisibilityState (Some stranger) (Some flaggedTarget)
       alwaysSneaked (VBool false)).2 = [].
Proof.
  split; [repeat split|].
  destruct (sneak_predicate_not_consulted (Some stranger) (Some flaggedTarget)
              (VBool false)) as [_ H].
  - right. split; [reflexivity|]. split; [reflexivity|].
    split; [reflexivity|]. intros e He. discriminate He.
  - exact (H alwaysSneaked notCallable).
Defined.

(** ** The check made by [handleInvisibilityChange] *)

(** The check of lines 213-216 is the OR of the first three strategies
    of the probe, without the scan of the collection. *)
Lemma hasInvisibility_returns (actor : Actor) (method has : Value) :
  hasConditionMethod "invisible" (Some actor) = Ret method →
  conditionsHas "invisible" (Some actor) = Ret has →
  ∃ v, hasInvisibility actor = Ret v
       ∧ truthy v = truthy method
                    || truthy (systemConditionActive "invisible" (Some actor))
                    || truthy has.
Proof.
  unfold hasConditionMethod, conditionsHas, systemConditionActive,
    hasInvisibility, orElse.
  simpl. intros -> Hh. cbn [mbind outcome_bind].
  destruct (truthy method) eqn:Em; cbn [mbind outcome_bind].
  { rewrite Em. eauto. }
  destruct (truthy (system_conditions_active actor "invisible")) eqn:Ea;
    cbn [mbind outcome_bind].
  { eexists. split; [done|]. by rewrite Ea. }
  rewrite Hh. eauto.
Qed.

(** Whenever the check of the handler finds the condition, so does the
    probe. *)
Lemma hasInvisibility_sound (actor : Actor) (method has v : Value) :
  hasConditionMethod "invisible" (Some actor) = Ret method →
  conditionsHas "invisible" (Some actor) = Ret has →
  hasInvisibility actor = Ret v →
  truthy v = true →
  probeCondition "invisible" (Some actor) = Ret (VBool true).
Proof.
  intros Hm Hh Hv Ht.
  destruct (hasInvisibility_returns actor method has Hm Hh) as (v' & Hv' & E).
  rewrite Hv in Hv'. injection Hv' as <-.
  rewrite (probeCondition_returns _ _ _ _ Hm Hh), <- E, Ht. done.
Qed.

(** With the two host calls returning, the probe finds the condition
    exactly when the check of the handler or the scan of the collection
    does. *)
Lemma probe_is_check_or_scan (actor : Actor) (method has : Value) :
  hasConditionMethod "invisible" (Some actor) = Ret method →
  conditionsHas "invisible" (Some actor) = Ret has →
  ∃ v, hasInvisibility actor = Ret v
       ∧ probeCondition "invisible" (Some actor)
         = Ret (VBool (truthy v
                       || conditionsCollectionHas "invisible" (Some actor))).
Proof.
  intros Hm Hh.
  destruct (hasInvisibility_returns actor method has Hm Hh) as (v & Hv & E).
  exists v. split; [done|].
  by rewrite (probeCondition_returns _ _ _ _ Hm Hh), E.
Qed.

(** An actor on which the probe finds no invisible condition is one on
    which the check of the handler finds none. *)
Lemma hasInvisibility_negative (actor : Actor) (v : Value) :
  probeCondition "invisible" (Some actor) = Ret v →
  truthy v = false →
  ∃ v', hasInvisibility actor = Ret v' ∧ truthy v' = false.
Proof.
  intros Hp Hv.
  destruct (hasConditionMethod "invisible" (Some actor)) as [m|e] eqn:Hm;
    [|by rewrite (probeCondition_method_throws _ _ _ Hm) in Hp].
  destruct (conditionsHas "invisible" (Some actor)) as [h|e] eqn:Hh;
    [|by rewrite (probeCondition_has_throws _ _ _ _ Hm Hh) in Hp].
  destruct (probe_is_check_or_scan actor m h Hm Hh) as (v' & Hv' & Hp').
  rewrite Hp in Hp'. injection Hp' as ->. simpl in Hv.
  apply orb_false_iff in Hv as [Hv _]. by exists v'.
Qed.

(** C2 does not hold of the code: for an actor whose invisible condition
    is found by the scan of the conditions collection only, the probe of
    [isInvisibleTo] reports the condition, the check of
    [handleInvisibilityChange] (three strategies, no scan) does not, and
    the handler clears the record of a creature that is invisible. *)
Theorem handler_check_misses_collection_scan :
  probeCondition "invisible" (Some ghost) = Ret (VBool true)
  ∧ isInvisibleTo watcher ghostToken = Ret (VBool true)
  ∧ hasInvisibility ghost = Ret VUndefined
  ∧ (w ← handleInvisibilityChange (λ _, ∅) ghost ghostScene; Ret (journal w))
    = Ret [UnsetFlag 0 "pf2e-visioner" "invisibility"].
Proof. repeat split; vm_compute; reflexivity. Qed.

(** ** The loop over the tokens of the actor *)

Lemma elem_of_positionsWhere (p : Token → bool) (j : nat) (l : list Token) (i : nat) :
  i ∈ positionsWhere p j l ↔ ∃ t, j ≤ i ∧ l !! (i - j) = Some t ∧ p t = true.
Proof.
  revert j. induction l as [|t l IH]; intros j; simpl.
  - split; [by intros ?%not_elem_of_nil|]. by intros (t & _ & H & _).
  - assert (∀ t', j ≤ i → i ≠ j → (t :: l) !! (i - j) = Some t' ↔ l !! (i - S j) = Some t')
      as Hshift.
    { intros t' Hle Hne. by replace (i - j) with (S (i - S j)) by lia. }
    destruct (p t) eqn:E.
    + rewrite elem_of_cons, IH. split.
      * intros [->|(t' & Hle & Hl & Hp)].
        -- exists t. by rewrite Nat.sub_diag.
        -- exists t'. split; [lia|]. split; [|done]. apply Hshift; [lia|lia|done].
      * intros (t' & Hle & Hl & Hp).
        destruct (decide (i = j)) as [->|Hne]; [by left|right].
        exists t'. split; [lia|]. split; [|done]. by apply Hshift.
    + rewrite IH. split.
      * intros (t' & Hle & Hl & Hp). exists t'. split; [lia|].
        split; [|done]. apply Hshift; [lia|lia|done].
      * intros (t' & Hle & Hl & Hp).
        destruct (decide (i = j)) as [->|Hne].
        -- rewrite Nat.sub_diag in Hl. simpl in Hl. congruence.
        -- exists t'. split; [lia|]. split; [|done]. by apply Hshift.
Qed.

Lemma NoDup_positionsWhere (p : Token → bool) (j : nat) (l : list Token) :
  NoDup (positionsWhere p j l).
Proof.
  revert j. induction l as [|t l IH]; intros j; simpl; [constructor|].
  destruct (p t); [|done]. apply NoDup_cons. split; [|done].
  rewrite elem_of_positionsWhere. intros (t' & Hle & _). lia.
Qed.

(** The tokens the handler visits are the tokens bound to the actor. *)
Lemma elem_of_bound_positions (actor : Actor) (l : list Token) (i : nat) :
  i ∈ positionsWhere (boundTo actor) 0 l
  ↔ ∃ t, l !! i = Some t ∧ boundTo actor t = true.
Proof.
  rewrite elem_of_positionsWhere. rewrite Nat.sub_0_r.
  split.
  - intros (t & _ & Ht & Hp). by exists t.
  - intros (t & Ht & Hp). exists t. split; [lia|done].
Qed.

Lemma calls_of_one_token (i x : nat) (calls : list HostCall) :
  (∀ c, c ∈ calls → callToken c = x) →
  filter (λ c, callToken c = i) calls = if decide (i = x) then calls else [].
Proof.
  induction calls as [|c calls IH]; intros H.
  - by destruct (decide _).
  - rewrite filter_cons.
    assert (callToken c = x) as Hc by (apply H; left).
    rewrite IH by (intros c' Hc'; apply H; by right).
    destruct (decide (i = x)) as [->|Hne]; destruct (decide _); congruence.
Qed.

Section ForEach.

(** A loop body that rewrites the token it visits and journals calls
    about it, both determined by the skeleton of the scene and by the
    visited token. *)
Variable body : nat → World → outcome World.
Variable effect : list Token → nat → Token → Token * list HostCall.
Variable ready : list Token → nat → Prop.

Hypothesis body_effect : ∀ w i tok,
  placeables w !! i = Some tok → ready (placeables w) i →
  body i w
  = Ret {| placeables := <[i := (effect (placeables w) i tok).1]> (placeables w);
           journal := journal w ++ (effect (placeables w) i tok).2 |}.
Hypothesis effect_ext : ∀ l l' i tok,
  skeleton <$> l = skeleton <$> l' → effect l i tok = effect l' i tok.
Hypothesis ready_ext : ∀ l l' i,
  skeleton <$> l = skeleton <$> l' → ready l i → ready l' i.
Hypothesis effect_skeleton : ∀ l i tok,
  skeleton (effect l i tok).1 = skeleton tok.
Hypothesis effect_calls : ∀ l i tok c,
  c ∈ (effect l i tok).2 → callToken c = i.

Lemma forEach_effect (xs : list nat) (w : World) :
  NoDup xs →
  (∀ i, i ∈ xs → is_Some (placeables w !! i) ∧ ready (placeables w) i) →
  ∃ w' calls,
    forEach body xs w = Ret w'
    ∧ skeleton <$> placeables w' = skeleton <$> placeables w
    ∧ journal w' = journal w ++ calls
    ∧ (∀ i, i ∉ xs →
         placeables w' !! i = placeables w !! i
         ∧ filter (λ c, callToken c = i) calls = [])
    ∧ (∀ i tok, i ∈ xs → placeables w !! i = Some tok →
         placeables w' !! i = Some (effect (placeables w) i tok).1
         ∧ filter (λ c, callToken c = i) calls = (effect (placeables w) i tok).2).
Proof.
  revert w. induction xs as [|x xs IH]; intros w Hnd Hready.
  - exists w, []. simpl. rewrite app_nil_r.
    split; [done|]. split; [done|]. split; [done|]. split.
    + by intros i _.
    + intros i tok Hi. by apply not_elem_of_nil in Hi.
  - apply NoDup_cons in Hnd as [Hx Hnd].
    destruct (Hready x) as [[tok Htok] Hr]; [left|].
    pose proof (body_effect w x tok Htok Hr) as Hstep.
    set (w1 := {| placeables := <[x := (effect (placeables w) x tok).1]> (placeables w);
                  journal := journal w ++ (effect (placeables w) x tok).2 |}) in *.
    assert (skeleton <$> placeables w1 = skeleton <$> placeables w) as Hsk.
    { simpl. rewrite list_fmap_insert, effect_skeleton.
      apply list_insert_id. by rewrite list_lookup_fmap, Htok. }
    assert (∀ i, i ≠ x → placeables w1 !! i = placeables w !! i) as Hother.
    { intros i Hne. simpl. by apply list_lookup_insert_ne. }
    destruct (IH w1 Hnd) as (w' & calls & Hrun & Hsk' & Hj & Hout & Hin).
    { intros i Hi. rewrite Hother by (intros ->; done).
      destruct (Hready i) as [? ?]; [by right|]. split; [done|].
      by apply (ready_ext (placeables w)). }
    exists w', ((effect (placeables w) x tok).2 ++ calls).
    split; [simpl; by rewrite Hstep|].
    split; [by rewrite Hsk'|].
    split; [rewrite Hj; simpl; by rewrite app_assoc|].
    split.
    + intros i Hi. apply not_elem_of_cons in Hi as [Hne Hi].
      destruct (Hout i Hi) as [Hl Hf]. split; [by rewrite Hl, Hother|].
      rewrite filter_app, Hf, app_nil_r.
      rewrite (calls_of_one_token i x) by apply effect_calls.
      by destruct (decide _).
    + intros i tok' Hi Htok'. apply elem_of_cons in Hi as [->|Hi].
      * rewrite Htok in Htok'. injection Htok' as <-.
        destruct (Hout x Hx) as [Hl Hf]. split.
        -- rewrite Hl. simpl. apply list_lookup_insert_eq.
           by apply lookup_lt_Some in Htok.
        -- rewrite filter_app, Hf, app_nil_r.
           rewrite (calls_of_one_token x x) by apply effect_calls.
           by destruct (decide _).
      * assert (i ≠ x) as Hne by (intros ->; done).
        destruct (Hin i tok' Hi) as [Hl Hf]; [by rewrite Hother|].
        rewrite (effect_ext _ _ _ _ Hsk) in Hl, Hf. split; [done|].
        rewrite filter_app, Hf.
        rewrite (calls_of_one_token i x) by apply effect_calls.
        by destruct (decide _).
Qed.

End ForEach.

Lemma skeleton_lookup (l l' : list Token) (i : nat) (t : Token) :
  skeleton <$> l = skeleton <$> l' →
  l !! i = Some t →
  ∃ t', l' !! i = Some t' ∧ skeleton t' = skeleton t.
Proof.
  intros Hsk Ht.
  assert ((skeleton <$> l') !! i = Some (skeleton t)) as H.
  { by rewrite <- Hsk, list_lookup_fmap, Ht. }
  rewrite list_lookup_fmap in H.
  destruct (l' !! i) as [t'|]; [|done]. exists t'. split; [done|].
  simpl in H. congruence.
Qed.

Lemma skeleton_actor (t t' : Token) :
  skeleton t' = skeleton t → tok_actor t' = tok_actor t.
Proof. by intros [= -> _]. Qed.

Lemma skeleton_document (t t' : Token) :
  skeleton t' = skeleton t →
  is_Some (tok_document t) → is_Some (tok_document t').
Proof.
  intros [= _ H] [d Hd]. rewrite Hd in H.
  destruct (tok_document t'); [by eexists|done].
Qed.

Lemma skeleton_boundTo (actor : Actor) (t t' : Token) :
  skeleton t' = skeleton t → boundTo actor t' = boundTo actor t.
Proof. intros H%skeleton_actor. unfold boundTo. by rewrite H. Qed.

Lemma skeleton_withDocument (t : Token) (d d' : Document) :
  tok_document t = Some d → doc_id d' = doc_id d →
  skeleton (withDocument t d') = skeleton t.
Proof. intros Hd Hid. unfold skeleton. simpl. by rewrite Hd, Hid. Qed.

(** ** The host flag store *)

Lemma invisibilityNamespace_unsetFlag (d : Document) :
  invisibilityNamespace (unsetFlag "pf2e-visioner" "invisibility" d) = None.
Proof.
  unfold invisibilityNamespace, unsetFlag. simpl.
  rewrite lookup_alter_eq.
  destruct (doc_flags d !! "pf2e-visioner") as [scope|]; simpl; [|done].
  apply lookup_delete_eq.
Qed.

Lemma invisibilityNamespace_setFlag (flags : InvisibilityFlags) (d : Document) :
  invisibilityNamespace (setFlag "pf2e-visioner" "invisibility" flags d)
  = Some flags.
Proof.
  unfold invisibilityNamespace, setFlag. simpl.
  rewrite lookup_insert_eq. simpl. apply lookup_insert_eq.
Qed.

(** Unsetting leaves the other keys of the scope and the other scopes
    as they are. *)
Lemma unsetFlag_other (scope key scope' key' : string) (d : Document) :
  (scope', key') ≠ (scope, key) →
  (doc_flags (unsetFlag scope key d) !! scope') ≫= (.!! key')
  = (doc_flags d !! scope') ≫= (.!! key').
Proof.
  intros Hne. unfold unsetFlag. simpl.
  destruct (decide (scope' = scope)) as [->|Hs].
  - rewrite lookup_alter_eq.
    destruct (doc_flags d !! scope) as [m|]; simpl; [|done].
    apply lookup_delete_ne. congruence.
  - by rewrite lookup_alter_ne.
Qed.

(** ** Clearing *)

Lemma documented_ext (l l' : list Token) (i : nat) :
  skeleton <$> l = skeleton <$> l' → documented l i → documented l' i.
Proof.
  intros Hsk (tok & Ht & Hd).
  destruct (skeleton_lookup _ _ _ _ Hsk Ht) as (tok' & Ht' & Hs).
  exists tok'. split; [done|]. by apply (skeleton_document tok).
Qed.

Lemma clear_effect (w : World) (i : nat) (tok : Token) :
  placeables w !! i = Some tok → documented (placeables w) i →
  clearInvisibilityFlagsPrivate i w
  = Ret {| placeables := <[i := (clearEffect (placeables w) i tok).1]> (placeables w);
           journal := journal w ++ (clearEffect (placeables w) i tok).2 |}.
Proof.
  intros Ht (tok' & Ht' & [d Hd]). rewrite Ht in Ht'. injection Ht' as <-.
  unfold clearInvisibilityFlagsPrivate, onDocument, clearEffect.
  by rewrite Ht, Hd.
Qed.

Lemma clearEffect_skeleton (l : list Token) (i : nat) (tok : Token) :
  skeleton (clearEffect l i tok).1 = skeleton tok.
Proof.
  unfold clearEffect. destruct (tok_document tok) as [d|] eqn:Hd; [|done].
  by apply (skeleton_withDocument _ d).
Qed.

Lemma clearEffect_calls (l : list Token) (i : nat) (tok : Token) (c : HostCall) :
  c ∈ (clearEffect l i tok).2 → callToken c = i.
Proof.
  unfold clearEffect. destruct (tok_document tok); simpl.
  - by intros ->%list_elem_of_singleton.
  - by intros ?%not_elem_of_nil.
Qed.

(** ** Recording *)

Lemma liveDocumented_ext (l l' : list Token) :
  skeleton <$> l = skeleton <$> l' → liveDocumented l → liveDocumented l'.
Proof.
  intros Hsk H t' [n Hn]%list_elem_of_lookup Ha.
  destruct (skeleton_lookup l' l n t') as (t & Ht & Hs); [done|done|].
  apply (skeleton_document t); [done|]. apply H.
  - apply list_elem_of_lookup. by exists n.
  - by rewrite (skeleton_actor _ _ Hs).
Qed.

(** The test of line 246 on the value of line 243. *)
Lemma isVisibleState_reads (vm : gmap string string) (k : string) :
  isVisibleState (currentVisibility vm k) = true ↔ readsAsVisible vm k.
Proof.
  unfold currentVisibility, getProperty, readsAsVisible.
  destruct (vm !! k) as [s|].
  - destruct (bool_decide (s = "")) eqn:Hs.
    + apply bool_decide_eq_true in Hs as ->. split; [auto|done].
    + apply bool_decide_eq_false in Hs. simpl.
      rewrite orb_true_iff, !bool_decide_eq_true. split.
      * intros [->| ->]; auto.
      * intros [[= ->]|[[= ->]|[[= ->]|[[=] _]]]]; auto. done.
  - destruct (bool_decide (k ∈ objectPrototypeKeys)) eqn:Hk; simpl.
    + apply bool_decide_eq_true in Hk. split; [done|].
      intros [[=]|[[=]|[[=]|[_ ?]]]]. done.
    + apply bool_decide_eq_false in Hk. split; [auto|done].
Qed.

(** The key is added to the record: line 246 passes and line 247 adds
    an own property. *)
Lemma stores_key (vm : gmap string string) (k : string) :
  isVisibleState (currentVisibility vm k) && negb (bool_decide (k = "__proto__"))
  = true
  ↔ readsAsVisible vm k ∧ k ≠ "__proto__".
Proof.
  by rewrite andb_true_iff, negb_true_iff, bool_decide_eq_false,
    isVisibleState_reads.
Qed.

Lemma collectWasVisible_step {B} (vm : gmap string string) (k : string)
    (e : FlagEntry) (m : InvisibilityFlags) (f : InvisibilityFlags → B) :
  (if isVisibleState (currentVisibility vm k)
   then f (setProperty k e m) else f m)
  = f (if isVisibleState (currentVisibility vm k)
          && negb (bool_decide (k = "__proto__"))
       then <[k := e]> m else m).
Proof.
  unfold setProperty.
  by destruct (isVisibleState _), (bool_decide (k = "__proto__")).
Qed.

Lemma seenFrom_cons (vm : gmap string string) (t : Token) (rest : list Token)
    (i j : nat) (k : string) :
  seenFrom vm (t :: rest) i j k
  ↔ (j ≠ i ∧ is_Some (tok_actor t)
     ∧ ∃ d, tok_document t = Some d ∧ propertyKey (doc_id d) = k
            ∧ readsAsVisible vm k ∧ k ≠ "__proto__")
    ∨ seenFrom vm rest i (S j) k.
Proof.
  unfold seenFrom. split.
  - intros (n & other & d & Hne & Hl & Ha & Hd & Hk & Hv).
    destruct n as [|n]; simpl in Hl.
    + left. injection Hl as ->. rewrite Nat.add_0_r in Hne. eauto 10.
    + right. exists n, other, d. repeat split; try done; try lia; apply Hv.
  - intros [(Hne & Ha & d & Hd & Hk & Hv)|(n & other & d & Hne & Hl & Ha & Hd & Hk & Hv)].
    + exists 0, t, d. rewrite Nat.add_0_r. done.
    + exists (S n), other, d. repeat split; try done; try lia; apply Hv.
Qed.

Lemma collectWasVisible_spec (vm : gmap string string) (i : nat)
    (l : list Token) (j : nat) (m : InvisibilityFlags) :
  liveDocumented l →
  ∃ m', collectWasVisible i vm j l m = Ret m'
        ∧ (∀ k, is_Some (m' !! k) ↔ is_Some (m !! k) ∨ seenFrom vm l i j k)
        ∧ (∀ k e, m' !! k = Some e →
                  m !! k = Some e ∨ e = {| wasVisible := VBool true |}).
Proof.
  revert j m. induction l as [|t rest IH]; intros j m Hlive.
  - exists m. split; [done|]. split; [|by left].
    intros k. split; [by left|]. intros [H|(n & ? & ? & _ & H & _)]; done.
  - assert (liveDocumented rest) as Hrest.
    { intros t' Ht'. apply Hlive. by right. }
    cbn [collectWasVisible].
    destruct (bool_decide (j = i) || negb (bool_decide (is_Some (tok_actor t))))
      eqn:Hskip.
    + destruct (IH (S j) m Hrest) as (m' & Hrun & Hdom & Hval).
      exists m'. split; [done|]. split; [|done].
      intros k. rewrite Hdom, seenFrom_cons.
      apply orb_true_iff in Hskip as [Hj%bool_decide_eq_true|Ha%negb_true_iff].
      * skip_head. intros [?|[[? _]|?]]; [by left|done|by right].
      * apply bool_decide_eq_false in Ha. skip_head.
        intros [?|[(_ & ? & _)|?]]; [by left|done|by right].
    + apply orb_false_iff in Hskip as [Hj%bool_decide_eq_false Ha%negb_false_iff].
      apply bool_decide_eq_true in Ha.
      destruct (Hlive t) as [d Hd]; [left|done|]. rewrite Hd.
      cbv zeta.
      rewrite (collectWasVisible_step vm (propertyKey (doc_id d)) _ m
                 (collectWasVisible i vm (S j) rest)).
      destruct (isVisibleState (currentVisibility vm (propertyKey (doc_id d)))
                && negb (bool_decide (propertyKey (doc_id d) = "__proto__")))
        eqn:Hvis.
      * apply stores_key in Hvis.
        destruct (IH (S j) (<[propertyKey (doc_id d) := {| wasVisible := VBool true |}]> m)
                    Hrest) as (m' & Hrun & Hdom & Hval).
        exists m'. split; [done|]. split.
        -- intros k. rewrite Hdom, seenFrom_cons, lookup_insert_is_Some.
           split.
           ++ intros [[<-|[_ H]]|H]; [|by left|by right; right].
              right. left. eauto 10.
           ++ intros [H|[(_ & _ & d' & Hd' & Hk & _)|H]]; [|left; left|by right].
              ** destruct (decide (propertyKey (doc_id d) = k)); [by left; left|].
                 left. by right.
              ** congruence.
        -- intros k e He. apply Hval in He as [He|He]; [|by right].
           apply lookup_insert_Some in He as [[_ <-]|[_ He]]; [by right|by left].
      * destruct (IH (S j) m Hrest) as (m' & Hrun & Hdom & Hval).
        exists m'. split; [done|]. split; [|done].
        intros k. rewrite Hdom, seenFrom_cons. skip_head.
        intros [H|[(_ & _ & d' & Hd' & Hk & Hv)|H]]; [by left| |by right].
        rewrite Hd in Hd'. injection Hd' as <-. subst k.
        apply stores_key in Hv. congruence.
Qed.

Lemma collectWasVisible_ext (vm : gmap string string) (i : nat)
    (l l' : list Token) (j : nat) (m : InvisibilityFlags) :
  skeleton <$> l = skeleton <$> l' →
  collectWasVisible i vm j l m = collectWasVisible i vm j l' m.
Proof.
  revert l' j m. induction l as [|t rest IH]; intros l' j m Hsk.
  - symmetry in Hsk. apply fmap_nil_inv in Hsk. by subst.
  - rewrite fmap_cons in Hsk. symmetry in Hsk.
    apply fmap_cons_inv in Hsk as (t' & rest' & Ht & Hrest & ->).
    cbn [collectWasVisible].
    injection Ht as Ha Hd. rewrite <- Ha.
    destruct (bool_decide (j = i) || negb (bool_decide (is_Some (tok_actor t)))).
    + apply IH. by rewrite Hrest.
    + destruct (tok_document t) as [d|], (tok_document t') as [d'|];
        simpl in Hd; try done.
      injection Hd as ->. cbv zeta.
      destruct (isVisibleState _); apply IH; by rewrite Hrest.
Qed.

Section BookkeepingProperties.

Variable getVisibilityMap : Token → gmap string string.

Lemma handleToken_removed (actor : Actor) (v : Value) (i : nat) (w : World) :
  hasInvisibility actor = Ret v → truthy v = false →
  handleToken getVisibilityMap actor i w = clearInvisibilityFlagsPrivate i w.
Proof. intros Hv Ht. unfold handleToken. rewrite Hv. simpl. by rewrite Ht. Qed.

Lemma handleToken_added (actor : Actor) (v : Value) (i : nat) (w : World) :
  hasInvisibility actor = Ret v → truthy v = true →
  handleToken getVisibilityMap actor i w
  = recordVisibilityBeforeInvisibility getVisibilityMap i w.
Proof. intros Hv Ht. unfold handleToken. rewrite Hv. simpl. by rewrite Ht. Qed.

(** C9: when the handler's check finds the invisible condition gone
    from the actor, [handleInvisibilityChange] completes; it makes one
    [unsetFlag] call, and no other call, for each token of the scene
    bound to that actor, and afterwards the document of every such token
    has no invisibility namespace, whatever the documents held before. *)
Theorem handleInvisibilityChange_clears (actor : Actor) (w : World) (v : Value) :
  hasInvisibility actor = Ret v →
  truthy v = false →
  (∀ i tok, placeables w !! i = Some tok → boundTo actor tok = true →
            is_Some (tok_document tok)) →
  ∃ w' calls,
    handleInvisibilityChange getVisibilityMap actor w = Ret w'
    ∧ length (placeables w') = length (placeables w)
    ∧ journal w' = journal w ++ calls
    ∧ (∀ i tok, placeables w !! i = Some tok → boundTo actor tok = true →
                filter (λ c, callToken c = i) calls
                = [UnsetFlag i "pf2e-visioner" "invisibility"])
    ∧ (∀ i tok', placeables w' !! i = Some tok' →
                 boundTo actor tok' = true →
                 ∃ d', tok_document tok' = Some d'
                       ∧ invisibilityNamespace d' = None).
Proof.
  intros Hv Hfalse Hdoc. unfold handleInvisibilityChange.
  destruct (forEach_effect (handleToken getVisibilityMap actor)
              clearEffect documented) with
    (xs := positionsWhere (boundTo actor) 0 (placeables w)) (w := w)
    as (w' & calls & Hrun & Hsk & Hj & _ & Hin).
  - intros w0 i tok Ht Hr. rewrite (handleToken_removed _ _ _ _ Hv Hfalse).
    by apply clear_effect.
  - done.
  - apply documented_ext.
  - apply clearEffect_skeleton.
  - apply clearEffect_calls.
  - apply NoDup_positionsWhere.
  - intros i (tok & Ht & Hb)%elem_of_bound_positions.
    split; [by eexists|]. exists tok. split; [done|]. by apply (Hdoc i).
  - assert (∀ i tok, placeables w !! i = Some tok → boundTo actor tok = true →
              ∃ d, tok_document tok = Some d
                ∧ placeables w' !! i
                  = Some (withDocument tok (unsetFlag "pf2e-visioner" "invisibility" d))
                ∧ filter (λ c, callToken c = i) calls
                  = [UnsetFlag i "pf2e-visioner" "invisibility"]) as Hbound.
    { intros i tok Ht Hb. destruct (Hdoc i tok Ht Hb) as [d Hd].
      destruct (Hin i tok) as [Hl Hf]; [|done|].
      { apply elem_of_bound_positions. by exists tok. }
      unfold clearEffect in Hl, Hf. rewrite Hd in Hl, Hf. by exists d. }
    exists w', calls. split; [done|]. split.
    { by rewrite <- (length_fmap skeleton), Hsk, length_fmap. }
    split; [done|]. split.
    + intros i tok Ht Hb. by destruct (Hbound i tok Ht Hb) as (d & _ & _ & Hf).
    + intros i tok' Ht' Hb'.
      destruct (skeleton_lookup _ _ _ _ Hsk Ht') as (tok & Ht & Hs).
      rewrite <- (skeleton_boundTo actor _ _ Hs) in Hb'.
      destruct (Hbound i tok Ht Hb') as (d & Hd & Hl & _).
      rewrite Ht' in Hl. injection Hl as ->.
      eexists. split; [done|]. apply invisibilityNamespace_unsetFlag.
Qed.

Lemma record_effect (w : World) (i : nat) (tok : Token) :
  placeables w !! i = Some tok → recordable (placeables w) i →
  recordVisibilityBeforeInvisibility getVisibilityMap i w
  = Ret {| placeables := <[i := (recordEffect getVisibilityMap (placeables w) i tok).1]> (placeables w);
           journal := journal w ++ (recordEffect getVisibilityMap (placeables w) i tok).2 |}.
Proof.
  intros Ht [Hlive (tok' & Ht' & [d Hd])].
  rewrite Ht in Ht'. injection Ht' as <-.
  unfold recordVisibilityBeforeInvisibility, recordEffect, recordedFlags.
  rewrite Ht, Hd.
  destruct (collectWasVisible_spec (getVisibilityMap tok) i (placeables w) 0 ∅ Hlive)
    as (m & -> & _).
  cbn [mbind outcome_bind tryCatch].
  case_bool_decide.
  - unfold onDocument. by rewrite Ht, Hd.
  - simpl. rewrite app_nil_r, list_insert_id by done. by destruct w.
Qed.

Lemma recordEffect_ext (l l' : list Token) (i : nat) (tok : Token) :
  skeleton <$> l = skeleton <$> l' →
  recordEffect getVisibilityMap l i tok = recordEffect getVisibilityMap l' i tok.
Proof.
  intros Hsk. unfold recordEffect, recordedFlags.
  by rewrite (collectWasVisible_ext _ _ l l').
Qed.

Lemma recordable_ext (l l' : list Token) (i : nat) :
  skeleton <$> l = skeleton <$> l' → recordable l i → recordable l' i.
Proof.
  intros Hsk [H1 H2]. split.
  - by apply (liveDocumented_ext l).
  - by apply (documented_ext l).
Qed.

Lemma recordEffect_skeleton (l : list Token) (i : nat) (tok : Token) :
  skeleton (recordEffect getVisibilityMap l i tok).1 = skeleton tok.
Proof.
  unfold recordEffect. destruct (tok_document tok) as [d|] eqn:Hd; [|done].
  case_bool_decide; [|done]. by apply (skeleton_withDocument _ d).
Qed.

Lemma recordEffect_calls (l : list Token) (i : nat) (tok : Token) (c : HostCall) :
  c ∈ (recordEffect getVisibilityMap l i tok).2 → callToken c = i.
Proof.
  unfold recordEffect. destruct (tok_document tok); simpl.
  - case_bool_decide; simpl.
    + by intros ->%list_elem_of_singleton.
    + by intros ?%not_elem_of_nil.
  - by intros ?%not_elem_of_nil.
Qed.

(** The keys of the record computed for a token, and its entries. *)
Lemma recordedFlags_spec (l : list Token) (i : nat) (tok : Token) :
  liveDocumented l →
  (∀ k, k ∈ dom (recordedFlags getVisibilityMap l i tok)
        ↔ seenFrom (getVisibilityMap tok) l i 0 k)
  ∧ (∀ k e, recordedFlags getVisibilityMap l i tok !! k = Some e →
            e = {| wasVisible := VBool true |}).
Proof.
  intros Hlive. unfold recordedFlags.
  destruct (collectWasVisible_spec (getVisibilityMap tok) i l 0 ∅ Hlive)
    as (m & -> & Hdom & Hval).
  cbn [tryCatch]. split.
  - intros k. rewrite elem_of_dom, Hdom, lookup_empty.
    split; [|by right]. intros [[? H]|H]; done.
  - intros k e He. apply Hval in He as [He|He]; [|done].
    by rewrite lookup_empty in He.
Qed.

Lemma recordedFlags_nonempty (l : list Token) (i : nat) (tok : Token) :
  liveDocumented l →
  0 < size (recordedFlags getVisibilityMap l i tok)
  ↔ ∃ k, seenFrom (getVisibilityMap tok) l i 0 k.
Proof.
  intros Hlive. destruct (recordedFlags_spec l i tok Hlive) as [Hdom _].
  split.
  - intros Hsize.
    destruct (map_choose (recordedFlags getVisibilityMap l i tok)) as (k & e & Hk).
    { intros Hempty. rewrite Hempty, map_size_empty in Hsize. lia. }
    exists k. apply Hdom, elem_of_dom. by eexists.
  - intros [k Hk]. apply Hdom, elem_of_dom in Hk as [e He].
    assert (size (recordedFlags getVisibilityMap l i tok) ≠ 0); [|lia].
    intros Hz%map_size_empty_iff. by rewrite Hz, lookup_empty in He.
Qed.

(** C1 (amended): when the handler's check finds the invisible
    condition on the actor and every token of the scene with a live
    actor has a document, [handleInvisibilityChange] completes, and for
    each token of the scene bound to the actor: the observers are the
    other tokens with a live actor whose state toward this token, read
    from the external visibility map as [visibilityMap[id] || 'observed']
    (a missing or empty entry defaults to "observed"; for an id naming a
    property of [Object.prototype] that the map does not own, the
    inherited value is read, which is no state), is "observed" or
    "concealed", and whose id is not ["__proto__"]; if there is one, a
    single [setFlag] call is made for the token and its document then
    holds an invisibility record whose keys are exactly the ids of these
    observers, each marked [wasVisible: true]; if there is none, no flag
    call is made for the token and the token is left as it was. *)
Theorem handleInvisibilityChange_records (actor : Actor) (w : World) (v : Value) :
  hasInvisibility actor = Ret v →
  truthy v = true →
  liveDocumented (placeables w) →
  ∃ w' calls,
    handleInvisibilityChange getVisibilityMap actor w = Ret w'
    ∧ journal w' = journal w ++ calls
    ∧ ∀ i tok, placeables w !! i = Some tok → boundTo actor tok = true →
        let observer := seenFrom (getVisibilityMap tok) (placeables w) i 0 in
        ((∃ k, observer k) →
         ∃ tok' d' flags,
           placeables w' !! i = Some tok'
           ∧ tok_document tok' = Some d'
           ∧ invisibilityNamespace d' = Some flags
           ∧ (∀ k, k ∈ dom flags ↔ observer k)
           ∧ (∀ k e, flags !! k = Some e → e = {| wasVisible := VBool true |})
           ∧ filter (λ c, callToken c = i) calls
             = [SetFlag i "pf2e-visioner" "invisibility" flags])
        ∧ ((¬ ∃ k, observer k) →
           placeables w' !! i = Some tok
           ∧ filter (λ c, callToken c = i) calls = []).
Proof.
  intros Hv Htrue Hlive. unfold handleInvisibilityChange.
  assert (∀ i tok, placeables w !! i = Some tok → boundTo actor tok = true →
                   is_Some (tok_document tok)) as Hdoc.
  { intros i tok Ht Hb. apply Hlive; [apply list_elem_of_lookup; by exists i|].
    unfold boundTo in Hb. destruct (tok_actor tok); [by eexists|done]. }
  destruct (forEach_effect (handleToken getVisibilityMap actor)
              (recordEffect getVisibilityMap) recordable) with
    (xs := positionsWhere (boundTo actor) 0 (placeables w)) (w := w)
    as (w' & calls & Hrun & Hsk & Hj & _ & Hin).
  - intros w0 i tok Ht Hr. rewrite (handleToken_added _ _ _ _ Hv Htrue).
    by apply record_effect.
  - apply recordEffect_ext.
  - apply recordable_ext.
  - apply recordEffect_skeleton.
  - apply recordEffect_calls.
  - apply NoDup_positionsWhere.
  - intros i (tok & Ht & Hb)%elem_of_bound_positions.
    split; [by eexists|]. split; [done|]. exists tok. split; [done|].
    by apply (Hdoc i).
  - exists w', calls. split; [done|]. split; [done|].
    intros i tok Ht Hb.
    destruct (Hin i tok) as [Hl Hf]; [|done|].
    { apply elem_of_bound_positions. by exists tok. }
    destruct (Hdoc i tok Ht Hb) as [d Hd].
    destruct (recordedFlags_spec (placeables w) i tok Hlive) as [Hdom Hval].
    pose proof (recordedFlags_nonempty (placeables w) i tok Hlive) as Hsize.
    unfold recordEffect in Hl, Hf. rewrite Hd in Hl, Hf.
    split.
    + intros Hsome. apply Hsize in Hsome.
      rewrite bool_decide_eq_true_2 in Hl, Hf by done.
      eexists _, _, (recordedFlags getVisibilityMap (placeables w) i tok).
      split; [exact Hl|]. split; [done|].
      split; [apply invisibilityNamespace_setFlag|]. done.
    + intros Hnone.
      rewrite bool_decide_eq_false_2 in Hl, Hf by (by rewrite Hsize).
      done.
Qed.

End BookkeepingProperties.

(** ** Concrete scenes *)

Lemma liveDocumented_check (l : list Token) :
  forallb (λ t, implb (bool_decide (is_Some (tok_actor t)))
                      (bool_decide (is_Some (tok_document t)))) l = true →
  liveDocumented l.
Proof.
  intros H t Ht Ha. rewrite forallb_forall in H.
  specialize (H t). rewrite <- list_elem_of_In in H. specialize (H Ht).
  rewrite (bool_decide_eq_true_2 _ Ha) in H.
  by apply bool_decide_eq_true in H.
Qed.

Example vanishedScene_journal :
  (w ← handleInvisibilityChange vanishedVisibility vanished vanishedScene;
   Ret (journal w))
  = Ret [SetFlag 0 "pf2e-visioner" "invisibility"
           {[ "token-14" := {| wasVisible := VBool true |};
              "token-15" := {| wasVisible := VBool true |} ]}].
Proof. vm_compute. reflexivity. Qed.

(** C1, as stated, fails: the visibility map records no state for the
    only observer, so no observer is recorded as "observed" or
    "concealed"; the handler nonetheless writes a record with this
    observer as a key, because line 243 reads a missing entry as
    "observed". *)
Lemma unrecorded_observer_gets_a_key :
  (∀ k, (∅ : gmap string string) !! k ≠ Some "observed"
        ∧ (∅ : gmap string string) !! k ≠ Some "concealed")
  ∧ hasInvisibility vanished = Ret (VBool true)
  ∧ (w ← handleInvisibilityChange (λ _, ∅) vanished
           {| placeables := [placed vanished "token-12"; watcher];
              journal := [] |};
     Ret (journal w))
    = Ret [SetFlag 0 "pf2e-visioner" "invisibility"
             {[ "token-8" := {| wasVisible := VBool true |} ]}].
Proof.
  split; [|split].
  - intros k. by rewrite lookup_empty.
  - reflexivity.
  - vm_compute. reflexivity.
Qed.

(** The ids the record of the vanished creature gets. *)
Lemma vanished_seen_by_15 :
  seenFrom (vanishedVisibility (placed vanished "token-12"))
    (placeables vanishedScene) 0 0 "token-15".
Proof.
  exists 3, (placed (bareActor "actor-15") "token-15"), (emptyDocument "token-15").
  split; [done|]. split; [done|]. split; [by eexists|].
  split; [done|]. split; [done|]. split; [|done].
  right. right. right. split; [done|].
  apply (bool_decide_eq_false_1 ("token-15" ∈ objectPrototypeKeys)).
  reflexivity.
Qed.

Lemma vanished_unseen_by_13 :
  ¬ seenFrom (vanishedVisibility (placed vanished "token-12"))
      (placeables vanishedScene) 0 0 "token-13".
Proof.
  intros (n & other & d & _ & _ & _ & _ & _ & Hr & _).
  destruct Hr as [H|[H|[H|[H _]]]]; vm_compute in H; discriminate H.
Qed.

(** An observer whose id names an inherited property gets no key, and
    no call is made; neither for the id ["__proto__"], even with an own
    entry of the map that reads "observed". *)
Example inherited_property_is_no_state :
  (w ← handleInvisibilityChange (λ _, ∅) vanished constructorScene;
   Ret (journal w)) = Ret []
  ∧ (w ← handleInvisibilityChange (λ _, {[ "__proto__" := "observed" ]})
           vanished protoScene;
     Ret (journal w)) = Ret [].
Proof. split; vm_compute; reflexivity. Qed.

Lemma handleInvisibilityChange_records_witness :
  hasInvisibility vanished = Ret (VBool true)
  ∧ liveDocumented (placeables vanishedScene)
  ∧ ∃ w' calls flags,
      handleInvisibilityChange vanishedVisibility vanished vanishedScene = Ret w'
      ∧ journal w' = journal vanishedScene ++ calls
      ∧ filter (λ c, callToken c = 0) calls
        = [SetFlag 0 "pf2e-visioner" "invisibility" flags]
      ∧ "token-15" ∈ dom flags
      ∧ "token-13" ∉ dom flags.
Proof.
  assert (liveDocumented (placeables vanishedScene)) as Hlive.
  { apply liveDocumented_check. reflexivity. }
  split; [reflexivity|]. split; [exact Hlive|].
  destruct (handleInvisibilityChange_records vanishedVisibility vanished
              vanishedScene (VBool true) eq_refl eq_refl Hlive)
    as (w' & calls & Hrun & Hj & Hall).
  destruct (Hall 0 (placed vanished "token-12") eq_refl eq_refl) as [Hsome _].
  destruct (Hsome (ex_intro _ "token-15" vanished_seen_by_15))
    as (tok' & d' & flags & _ & _ & _ & Hdom & _ & Hcalls).
  exists w', calls, flags. split; [exact Hrun|]. split; [exact Hj|].
  split; [exact Hcalls|]. split.
  - apply Hdom. exact vanished_seen_by_15.
  - intros Hin. apply Hdom in Hin. exact (vanished_unseen_by_13 Hin).
Defined.

Lemma handleInvisibilityChange_clears_witness :
  hasInvisibility revealed = Ret VUndefined
  ∧ ∃ w' calls,
      handleInvisibilityChange (λ _, ∅) revealed revealedScene = Ret w'
      ∧ journal w' = journal revealedScene ++ calls
      ∧ ∀ i tok', placeables w' !! i = Some tok' →
                  boundTo revealed tok' = true →
                  ∃ d', tok_document tok' = Some d'
                        ∧ invisibilityNamespace d' = None.
Proof.
  split; [reflexivity|].
  destruct (handleInvisibilityChange_clears (λ _, ∅) revealed revealedScene
              VUndefined eq_refl eq_refl)
    as (w' & calls & Hrun & _ & Hj & _ & Hclear).
  - intros i tok Ht _.
    destruct i as [|[|i]]; simpl in Ht; [| |discriminate Ht];
      injection Ht as <-; eexists; reflexivity.
  - exists w', calls. split; [exact Hrun|]. split; [exact Hj|exact Hclear].
Defined.

(** * Further properties *)

(** ** The singleton *)

Lemma obtained_after_first (calls : list ClassCall) (s : ClassState) (r : nat) :
  static_instance s = Some r →
  Forall (λ x, x = Some r) (obtained calls s).
Proof.
  revert s. induction calls as [|[] calls IH]; intros s Hs; simpl.
  - constructor.
  - unfold construct. rewrite Hs. simpl. constructor; [done|]. by apply IH.
  - unfold getInstance. rewrite Hs. simpl. constructor; [done|]. by apply IH.
Qed.

(** X1: whatever mix of [new ConditionManager()] and [getInstance()] the
    module makes, from any state of the class, every use obtains one and
    the same object, never [null]. *)
Theorem singleton_one_object (calls : list ClassCall) (s : ClassState) :
  ∃ r, Forall (λ x, x = Some r) (obtained calls s).
Proof.
  destruct (static_instance s) as [r|] eqn:Hs.
  - exists r. by apply obtained_after_first.
  - exists (nextRef s). destruct calls as [|[] calls]; simpl.
    + constructor.
    + unfold construct. rewrite Hs. simpl. constructor; [done|].
      by apply obtained_after_first.
    + unfold getInstance, construct. rewrite Hs. simpl. constructor; [done|].
      by apply obtained_after_first.
Qed.

(** ** More on the condition probes *)

(** In this embedding, where a host accessor hands back [undefined] or
    a boolean, a probe body that returns returns a boolean. *)
Lemma probeCondition_boolean (name : string) (actor : option Actor) (v : Value) :
  probeCondition name actor = Ret v → ∃ b, v = VBool b.
Proof.
  intros Hp.
  destruct (hasConditionMethod name actor) as [m|e] eqn:Hm;
    [|by rewrite (probeCondition_method_throws _ _ _ Hm) in Hp].
  destruct (conditionsHas name actor) as [h|e] eqn:Hh;
    [|by rewrite (probeCondition_has_throws _ _ _ _ Hm Hh) in Hp].
  rewrite (probeCondition_returns _ _ _ _ Hm Hh) in Hp.
  injection Hp as <-. by eexists.
Qed.


(** X4: over a collection that has [some] and no [null] entry, the scan
    strategy reports the condition exactly when an entry carries the name
    as its slug or as its key. *)
Theorem scan_finds_slug_or_key (name : string) (a : Actor) (c : ConditionsCollection)
    (cs : list Condition) :
  conditions a = Some c →
  coll_some c = Some (Some <$> cs) →
  conditionsCollectionHas name (Some a) = true
  ↔ ∃ x, x ∈ cs ∧ (slug x = Some name ∨ key x = Some name).
Proof.
  intros Hc Hs. unfold conditionsCollectionHas, scanConditions. simpl.
  rewrite Hc, Hs, array_some_matches. simpl.
  rewrite bool_decide_eq_true, Exists_exists. done.
Qed.

Lemma array_some_found (name : string) (before : list Condition) (x : Condition)
    (rest : list (option Condition)) :
  slug x = Some name ∨ key x = Some name →
  array_some (matchesCondition name) ((Some <$> before) ++ Some x :: rest)
  = Ret true.
Proof.
  intros Hx. induction before as [|c before IH].
  - cbn [fmap list_fmap app array_some matchesCondition].
    apply matches_true in Hx. rewrite Hx. done.
  - rewrite fmap_cons. cbn [app array_some matchesCondition].
    destruct (strictEq (slug c) name || strictEq (key c) name);
      cbn [mbind outcome_bind]; [done|exact IH].
Qed.

(** X5: the scan stops at the first decisive entry: an entry with the name
    is found even if a [null] entry follows it, and a [null] entry met
    before any entry with the name makes the strategy report false even
    if such an entry follows. *)
Theorem scan_is_order_sensitive (name : string) (a : Actor) (c : ConditionsCollection)
    (before : list Condition) (rest : list (option Condition)) :
  conditions a = Some c →
  (∀ x, coll_some c = Some ((Some <$> before) ++ Some x :: rest) →
        slug x = Some name ∨ key x = Some name →
        conditionsCollectionHas name (Some a) = true)
  ∧ (coll_some c = Some ((Some <$> before) ++ None :: rest) →
     (∀ x, x ∈ before → ¬ (slug x = Some name ∨ key x = Some name)) →
     conditionsCollectionHas name (Some a) = false).
Proof.
  intros Hc. unfold conditionsCollectionHas, scanConditions. simpl.
  rewrite Hc. split.
  - intros x -> Hx. by rewrite array_some_found.
  - intros -> Hb. by rewrite array_some_null.
Qed.

(** X6: [isInvisibleTo] returns true exactly when the probe finds the
    invisible condition on the target, the observer's [senses.has] call
    returns a falsy value (or is absent), and the nested senses hold no
    truthy see-invisibility. *)
Theorem isInvisibleTo_true_iff (observer target : Token) :
  isInvisibleTo observer target = Ret (VBool true)
  ↔ probeCondition "invisible" (tok_actor target) = Ret (VBool true)
    ∧ (∃ s, sensesHas "see-invisibility" (tok_actor observer) = Ret s
            ∧ truthy s = false)
    ∧ truthy (systemSense "see-invisibility" (tok_actor observer)) = false.
Proof.
  unfold isInvisibleTo, orElse. split.
  - intros H.
    destruct (probeCondition "invisible" (tok_actor target)) as [v|e] eqn:Hp;
      [|done].
    destruct (probeCondition_boolean _ _ _ Hp) as [[] ->];
      cbn [mbind outcome_bind truthy] in H; [|done].
    split; [done|].
    destruct (sensesHas "see-invisibility" (tok_actor observer)) as [s|e];
      cbn [mbind outcome_bind] in H; [|done].
    destruct (truthy s) eqn:Es; cbn [mbind outcome_bind] in H.
    + rewrite Es in H. done.
    + split; [by eexists|].
      by destruct (truthy (systemSense "see-invisibility" (tok_actor observer))).
  - intros (-> & (s & -> & Es) & Hsys). cbn [mbind outcome_bind truthy].
    rewrite Es. cbn [mbind outcome_bind]. by rewrite Hsys.
Qed.

(** ** More on the invisibility state resolver *)

Lemma getInvisibilityStateBody_consults (observer target : option Token)
    (canSeeNormally : Value) :
  getInvisibilityStateBody observer target canSeeNormally
  = if consultsSneak observer target canSeeNormally
    then AwaitSneak observer target (λ sneaked,
           if truthy sneaked then Resolved "undetected" else Resolved "hidden")
    else Resolved "undetected".
Proof.
  rewrite getInvisibilityStateBody_cases. unfold consultsSneak.
  destruct (idMissing _ || idMissing _); [done|]. simpl.
  by destruct (truthy canSeeNormally || _).
Qed.

(** X7: when the promise resolves, it resolves to "hidden" or to
    "undetected", whatever the predicate resolves to. *)
Theorem getInvisibilityState_range (observer target : option Token)
    (hasSneakOverride : SneakPredicate) (canSeeNormally : Value) (s : string) :
  (getInvisibilityState observer target hasSneakOverride canSeeNormally).1 = Ret s →
  s = "hidden" ∨ s = "undetected".
Proof.
  unfold getInvisibilityState. rewrite getInvisibilityStateBody_consults.
  destruct (consultsSneak _ _ _); simpl.
  - destruct (hasSneakOverride observer target) as [v|e]; simpl; [|done].
    destruct (truthy v); simpl; intros [= <-]; auto.
  - intros [= <-]. auto.
Qed.

(** X8: the predicate is invoked at most once, with the observer and the
    target as they were passed, and exactly when both identifiers are
    there and [canSeeNormally] or the stored [wasVisible] is truthy. *)
Theorem getInvisibilityState_invocations (observer target : option Token)
    (hasSneakOverride : SneakPredicate) (canSeeNormally : Value) :
  (getInvisibilityState observer target hasSneakOverride canSeeNormally).2
  = if consultsSneak observer target canSeeNormally
    then [(observer, target)] else [].
Proof.
  unfold getInvisibilityState. rewrite getInvisibilityStateBody_consults.
  destruct (consultsSneak _ _ _); simpl; [|done].
  destruct (hasSneakOverride observer target) as [v|e]; simpl; [|done].
  by destruct (truthy v).
Qed.

(** X9: a rejection of the predicate is not caught: on the branches that
    await it, [getInvisibilityState] rejects with the same error. *)
Theorem getInvisibilityState_rejects (observer target : option Token)
    (hasSneakOverride : SneakPredicate) (canSeeNormally : Value) (e : Exn) :
  consultsSneak observer target canSeeNormally = true →
  hasSneakOverride observer target = Throw e →
  (getInvisibilityState observer target hasSneakOverride canSeeNormally).1
  = Throw e.
Proof.
  intros Hc Hs. unfold getInvisibilityState.
  rewrite getInvisibilityStateBody_consults, Hc. simpl. by rewrite Hs.
Qed.

(** X10: the promise resolves to "hidden" exactly when the predicate is
    consulted and resolves to a falsy value. *)
Theorem getInvisibilityState_hidden_iff (observer target : option Token)
    (hasSneakOverride : SneakPredicate) (canSeeNormally : Value) :
  (getInvisibilityState observer target hasSneakOverride canSeeNormally).1
  = Ret "hidden"
  ↔ consultsSneak observer target canSeeNormally = true
    ∧ ∃ v, hasSneakOverride observer target = Ret v ∧ truthy v = false.
Proof.
  unfold getInvisibilityState. rewrite getInvisibilityStateBody_consults.
  destruct (consultsSneak _ _ _); simpl.
  - destruct (hasSneakOverride observer target) as [v|e]; simpl.
    + destruct (truthy v) eqn:Ev; simpl; split.
      * intros [=].
      * intros (_ & v' & [= <-] & Ev'). congruence.
      * intros _. split; [done|]. by exists v.
      * done.
    + split; [done|]. by intros (_ & v & H & _).
  - split; [intros [=]|by intros [? _]].
Qed.

(** X11: a sneak that succeeded settles the matter: if the predicate resolves
    to a truthy value for this pair, the result is "undetected" whatever
    the identifiers, [canSeeNormally] and the stored flags are. *)
Theorem getInvisibilityState_sneak_wins (observer target : option Token)
    (hasSneakOverride : SneakPredicate) (canSeeNormally v : Value) :
  hasSneakOverride observer target = Ret v →
  truthy v = true →
  (getInvisibilityState observer target hasSneakOverride canSeeNormally).1
  = Ret "undetected".
Proof.
  intros Hs Hv. unfold getInvisibilityState.
  rewrite getInvisibilityStateBody_consults.
  destruct (consultsSneak _ _ _); simpl; [|done].
  by rewrite Hs; simpl; rewrite Hv.
Qed.

(** ** The frame of the handler *)

Lemma sameButInvisibility_refl (t : Token) : sameButInvisibility t t.
Proof. split; [done|]. by destruct (tok_document t). Qed.

Lemma sameButInvisibility_trans (t1 t2 t3 : Token) :
  sameButInvisibility t1 t2 → sameButInvisibility t2 t3 →
  sameButInvisibility t1 t3.
Proof.
  intros [Ha H12] [Ha' H23]. split; [congruence|].
  destruct (tok_document t1), (tok_document t2), (tok_document t3); try done.
  destruct H12 as [Hi H12], H23 as [Hi' H23]. split; [congruence|].
  intros scope key Hne. by rewrite H23, H12.
Qed.

Lemma setFlag_other (scope key scope' key' : string) (v : InvisibilityFlags)
    (d : Document) :
  (scope', key') ≠ (scope, key) →
  readFlag scope' key' (setFlag scope key v d) = readFlag scope' key' d.
Proof.
  intros Hne. unfold readFlag, setFlag. simpl.
  destruct (decide (scope' = scope)) as [->|Hs].
  - rewrite lookup_insert_eq. simpl.
    rewrite lookup_insert_ne by congruence.
    by destruct (doc_flags d !! scope).
  - by rewrite lookup_insert_ne.
Qed.

Lemma touchesOnly_refl (xs : list nat) (w : World) : touchesOnly xs w w.
Proof.
  split; [|split; [done|]].
  - apply Forall2_same_length_lookup_2; [done|].
    intros i x y Hx Hy. rewrite Hx in Hy. injection Hy as <-.
    apply sameButInvisibility_refl.
  - exists []. split; [by rewrite app_nil_r|]. by intros c ?%not_elem_of_nil.
Qed.

Lemma touchesOnly_cons (x : nat) (xs : list nat) (w w1 w' : World) :
  touchesOnly [x] w w1 → touchesOnly xs w1 w' → touchesOnly (x :: xs) w w'.
Proof.
  intros (Hs1 & Ho1 & calls1 & Hj1 & Hc1) (Hs2 & Ho2 & calls2 & Hj2 & Hc2).
  split; [|split].
  - by apply (Forall2_trans _ _ _ _ _ _ sameButInvisibility_trans Hs1 Hs2).
  - intros j Hj. apply not_elem_of_cons in Hj as [Hne Hj].
    rewrite Ho2 by done. apply Ho1. by intros ->%list_elem_of_singleton.
  - exists (calls1 ++ calls2). split; [by rewrite Hj2, Hj1, app_assoc|].
    intros c [Hc|Hc]%elem_of_app.
    + apply Hc1, list_elem_of_singleton in Hc. rewrite Hc. by left.
    + right. by apply Hc2.
Qed.

Lemma onDocument_touches (i : nat) (f : Document → Document) (call : HostCall)
    (w w' : World) :
  (∀ d, doc_id (f d) = doc_id d
        ∧ ∀ scope key, (scope, key) ≠ ("pf2e-visioner", "invisibility") →
                       readFlag scope key (f d) = readFlag scope key d) →
  callToken call = i →
  onDocument i f call w = Ret w' →
  touchesOnly [i] w w'.
Proof.
  intros Hf Hcall. unfold onDocument.
  destruct (placeables w !! i) as [tok|] eqn:Ht; [|done].
  destruct (tok_document tok) as [d|] eqn:Hd; [|done].
  intros [= <-]. split; [|split]; simpl.
  - apply Forall2_same_length_lookup_2; [by rewrite length_insert|].
    intros j x y Hx Hy.
    destruct (decide (i = j)) as [<-|Hne].
    + rewrite list_lookup_insert_eq in Hy by (by apply lookup_lt_Some in Ht).
      rewrite Ht in Hx. injection Hx as <-. injection Hy as <-.
      split; [done|]. simpl. rewrite Hd. apply Hf.
    + rewrite list_lookup_insert_ne in Hy by done.
      rewrite Hx in Hy. injection Hy as <-. apply sameButInvisibility_refl.
  - intros j Hj. apply list_lookup_insert_ne.
    intros ->. apply Hj. by left.
  - exists [call]. split; [done|].
    intros c ->%list_elem_of_singleton. rewrite Hcall. by left.
Qed.

Lemma setFlag_frame (v : InvisibilityFlags) (d : Document) :
  doc_id (setFlag "pf2e-visioner" "invisibility" v d) = doc_id d
  ∧ ∀ scope key, (scope, key) ≠ ("pf2e-visioner", "invisibility") →
                 readFlag scope key (setFlag "pf2e-visioner" "invisibility" v d)
                 = readFlag scope key d.
Proof. split; [done|]. intros scope key Hne. by apply setFlag_other. Qed.

Lemma unsetFlag_frame (d : Document) :
  doc_id (unsetFlag "pf2e-visioner" "invisibility" d) = doc_id d
  ∧ ∀ scope key, (scope, key) ≠ ("pf2e-visioner", "invisibility") →
                 readFlag scope key (unsetFlag "pf2e-visioner" "invisibility" d)
                 = readFlag scope key d.
Proof. split; [done|]. intros scope key Hne. by apply unsetFlag_other. Qed.

Lemma positionsWhere_none (p : Token → bool) (j : nat) (l : list Token) :
  (∀ t, t ∈ l → p t = false) → positionsWhere p j l = [].
Proof.
  revert j. induction l as [|t l IH]; intros j H; [done|]. simpl.
  rewrite (H t) by left. apply IH. intros t' Ht'. apply H. by right.
Qed.

Section Frame.

Variable getVisibilityMap : Token → gmap string string.

Lemma handleToken_touches (actor : Actor) (i : nat) (w w' : World) :
  handleToken getVisibilityMap actor i w = Ret w' → touchesOnly [i] w w'.
Proof.
  unfold handleToken.
  destruct (hasInvisibility actor) as [v|e]; [|done]. cbn [mbind outcome_bind].
  destruct (truthy v).
  - unfold recordVisibilityBeforeInvisibility.
    destruct (placeables w !! i) as [tok|]; [|done].
    destruct (collectWasVisible _ _ _ _ _) as [flags|e]; [|done].
    cbn [mbind outcome_bind]. case_bool_decide.
    + apply onDocument_touches; [apply setFlag_frame|done].
    + intros [= <-]. apply touchesOnly_refl.
  - apply onDocument_touches; [apply unsetFlag_frame|done].
Qed.

Lemma forEach_touches (actor : Actor) (xs : list nat) (w w' : World) :
  forEach (handleToken getVisibilityMap actor) xs w = Ret w' →
  touchesOnly xs w w'.
Proof.
  revert w. induction xs as [|x xs IH]; intros w; simpl.
  - intros [= <-]. apply touchesOnly_refl.
  - destruct (handleToken getVisibilityMap actor x w) as [w1|e] eqn:Hstep;
      [|done].
    cbn [mbind outcome_bind]. intros Hrest.
    apply (touchesOnly_cons _ _ _ w1).
    + by apply (handleToken_touches actor).
    + by apply IH.
Qed.

(** X12: a handler that completes leaves every token that is not bound to
    the actor exactly as it was, and every flag-store call it made is
    about a token bound to the actor. *)
Theorem handler_leaves_other_tokens (actor : Actor) (w w' : World) :
  handleInvisibilityChange getVisibilityMap actor w = Ret w' →
  (∀ i tok, placeables w !! i = Some tok → boundTo actor tok = false →
            placeables w' !! i = Some tok)
  ∧ ∃ calls, journal w' = journal w ++ calls
             ∧ ∀ c, c ∈ calls →
                    ∃ tok, placeables w !! callToken c = Some tok
                           ∧ boundTo actor tok = true.
Proof.
  intros (_ & Hout & calls & Hj & Hc)%forEach_touches. split.
  - intros i tok Ht Hb. rewrite Hout; [done|].
    intros (tok' & Ht' & Hb')%elem_of_bound_positions. congruence.
  - exists calls. split; [done|]. intros c Hin.
    by apply elem_of_bound_positions, Hc.
Qed.

(** X13: a handler that completes changes nothing of any token but the
    invisibility namespace of its document: the scene keeps its length,
    every token its actor, every document its id and every flag stored
    under another scope or key. *)
Theorem handler_touches_namespace_only (actor : Actor) (w w' : World) :
  handleInvisibilityChange getVisibilityMap actor w = Ret w' →
  Forall2 sameButInvisibility (placeables w) (placeables w').
Proof. by intros (? & _)%forEach_touches. Qed.

(** X14: with no token of the scene bound to the actor the handler does
    nothing, and does not even evaluate its check: it completes also
    when [hasCondition] would throw. *)
Theorem handler_without_tokens (actor : Actor) (w : World) :
  (∀ tok, tok ∈ placeables w → boundTo actor tok = false) →
  handleInvisibilityChange getVisibilityMap actor w = Ret w.
Proof.
  intros H. unfold handleInvisibilityChange.
  by rewrite positionsWhere_none.
Qed.

(** X15: with a token bound to the actor, an exception of the handler's
    check leaves the handler: nothing is caught. *)
Theorem handler_propagates_check_exception (actor : Actor) (w : World)
    (i : nat) (tok : Token) (e : Exn) :
  hasInvisibility actor = Throw e →
  placeables w !! i = Some tok →
  boundTo actor tok = true →
  handleInvisibilityChange getVisibilityMap actor w = Throw e.
Proof.
  intros He Ht Hb. unfold handleInvisibilityChange.
  destruct (positionsWhere (boundTo actor) 0 (placeables w)) as [|x xs] eqn:Hp.
  - assert (i ∈ positionsWhere (boundTo actor) 0 (placeables w)) as Hi.
    { apply elem_of_bound_positions. by exists tok. }
    rewrite Hp in Hi. by apply not_elem_of_nil in Hi.
  - simpl. unfold handleToken. by rewrite He.
Qed.

End Frame.

(** X16: the check of the handler is lazier than the probes: once
    [hasCondition] reports the condition the check returns, although a
    [conditions.has] that throws makes the probe throw on the same
    actor. *)
Theorem handler_check_short_circuits (actor : Actor) (m : Value) :
  hasConditionMethod "invisible" (Some actor) = Ret m →
  truthy m = true →
  hasInvisibility actor = Ret m
  ∧ ∀ e, conditionsHas "invisible" (Some actor) = Throw e →
         probeCondition "invisible" (Some actor) = Throw e.
Proof.
  intros Hm Ht. split.
  - unfold hasInvisibility, orElse. unfold hasConditionMethod in Hm.
    simpl in Hm. rewrite Hm. cbn [mbind outcome_bind]. rewrite Ht.
    cbn [mbind outcome_bind]. by rewrite Ht.
  - intros e He. by apply (probeCondition_has_throws _ _ m).
Qed.

(** X17: with both host calls returning, the probe of [isInvisibleTo] finds
    the invisible condition exactly when the check of the handler finds
    it or the scan of the collection reports it: the two agree unless the
    scan alone knows the condition. *)
Theorem handler_check_versus_probe (actor : Actor) (method has : Value) :
  hasConditionMethod "invisible" (Some actor) = Ret method →
  conditionsHas "invisible" (Some actor) = Ret has →
  ∃ v b,
    hasInvisibility actor = Ret v
    ∧ probeCondition "invisible" (Some actor) = Ret (VBool b)
    ∧ (b = true ↔ truthy v = true ∨ scanReportsTrue "invisible" (Some actor)).
Proof.
  intros Hm Hh.
  destruct (hasInvisibility_returns actor method has Hm Hh) as (v & Hv & E).
  eexists v, _. split; [done|].
  split; [by apply probeCondition_returns|].
  rewrite <- E, orb_true_iff. by rewrite conditionsCollectionHas_true.
Qed.

(** ** The bookkeeping and the resolver together *)

Lemma flagEntryFor_document (obs : option Token) (tok : Token) (d : Document)
    (k : string) :
  documentId obs = Some k →
  tok_document tok = Some d →
  flagEntryFor obs (Some tok) = invisibilityNamespace d ≫= (.!! k).
Proof. intros Hk Hd. unfold flagEntryFor. rewrite Hk. simpl. by rewrite Hd. Qed.

Lemma idMissing_withDocument (tok : Token) (d d' : Document) :
  tok_document tok = Some d → doc_id d' = doc_id d →
  idMissing (documentId (Some (withDocument tok d')))
  = idMissing (documentId (Some tok)).
Proof. intros Hd Hid. unfold documentId. simpl. by rewrite Hd, Hid. Qed.

(** The resolver when the observer cannot see normally: the stored
    entry decides. *)
Lemma getInvisibilityState_by_entry (obs target : option Token)
    (p : SneakPredicate) (c : Value) :
  idMissing (documentId obs) = false →
  idMissing (documentId target) = false →
  truthy c = false →
  getInvisibilityState obs target p c
  = if truthy (from_option wasVisible VUndefined (flagEntryFor obs target))
    then exec p (AwaitSneak obs target (λ sneaked,
           if truthy sneaked then Resolved "undetected" else Resolved "hidden"))
    else (Ret "undetected", []).
Proof.
  intros Ho Ht Hc. unfold getInvisibilityState.
  rewrite getInvisibilityStateBody_consults. unfold consultsSneak.
  rewrite Ho, Ht, Hc. cbn [negb orb andb].
  by destruct (truthy (from_option wasVisible VUndefined (flagEntryFor obs target))).
Qed.

Lemma idMissing_some (obs : option Token) (k : string) :
  documentId obs = Some k → k ≠ "" → idMissing (documentId obs) = false.
Proof. intros -> Hk. simpl. by apply bool_decide_eq_false. Qed.

Lemma unsetFlag_idempotent (scope key : string) (d : Document) :
  unsetFlag scope key (unsetFlag scope key d) = unsetFlag scope key d.
Proof.
  unfold unsetFlag. simpl. f_equal. rewrite alter_alter_eq.
  apply map_eq. intros s. rewrite !lookup_alter.
  case_decide; [|done]. destruct (doc_flags d !! scope); simpl; [|done].
  by rewrite delete_delete_eq.
Qed.

Lemma setFlag_idempotent (scope key : string) (v : InvisibilityFlags) (d : Document) :
  setFlag scope key v (setFlag scope key v d) = setFlag scope key v d.
Proof.
  unfold setFlag. simpl. f_equal.
  rewrite lookup_insert_eq. simpl. by rewrite !insert_insert_eq.
Qed.

(** X20: writing a record with [setInvisibilityFlags] and reading it back as
    [getInvisibilityState] does (lines 178-179): the call completes with
    one [setFlag] call, and every observer then reads the [wasVisible] of
    its own entry in the record written, [undefined] if it has none. *)
Theorem setInvisibilityFlags_read_back (i : nat) (flags : InvisibilityFlags)
    (w : World) (tok : Token) (d : Document) :
  placeables w !! i = Some tok →
  tok_document tok = Some d →
  ∃ w' tok',
    setInvisibilityFlags i flags w = Ret w'
    ∧ placeables w' !! i = Some tok'
    ∧ journal w' = journal w ++ [SetFlag i "pf2e-visioner" "invisibility" flags]
    ∧ ∀ obs k, documentId obs = Some k →
               readWasVisible (documentId obs) (Some tok')
               = from_option wasVisible VUndefined (flags !! k).
Proof.
  intros Ht Hd. unfold setInvisibilityFlags, onDocument. rewrite Ht, Hd.
  eexists _, (withDocument tok (setFlag "pf2e-visioner" "invisibility" flags d)).
  split; [done|]. simpl. split.
  { apply list_lookup_insert_eq. by apply lookup_lt_Some in Ht. }
  split; [done|]. intros obs k Hk.
  rewrite readWasVisible_entry.
  rewrite (flagEntryFor_document _ _
             (setFlag "pf2e-visioner" "invisibility" flags d) k Hk) by done.
  by rewrite invisibilityNamespace_setFlag.
Qed.

(** X21: [clearInvisibilityFlags] has no guard: it calls [unsetFlag] whether
    or not a record is stored, and clearing a second time makes the call
    again and leaves the scene as the first clearing left it. *)
Theorem clearInvisibilityFlags_twice (i : nat) (w w1 : World) :
  clearInvisibilityFlags i w = Ret w1 →
  journal w1 = journal w ++ [UnsetFlag i "pf2e-visioner" "invisibility"]
  ∧ ∃ w2, clearInvisibilityFlags i w1 = Ret w2
          ∧ placeables w2 = placeables w1
          ∧ journal w2 = journal w1 ++ [UnsetFlag i "pf2e-visioner" "invisibility"].
Proof.
  unfold clearInvisibilityFlags, clearInvisibilityFlagsPrivate, onDocument.
  destruct (placeables w !! i) as [tok|] eqn:Ht; [|done].
  destruct (tok_document tok) as [d|] eqn:Hd; [|done].
  intros [= <-]. simpl. split; [done|].
  rewrite list_lookup_insert_eq by (by apply lookup_lt_Some in Ht). simpl.
  eexists. split; [done|]. simpl. split; [|done].
  by rewrite list_insert_insert_eq, unsetFlag_idempotent.
Qed.

Section Composition.

Variable getVisibilityMap : Token → gmap string string.

Lemma bound_is_documented (actor : Actor) (l : list Token) (i : nat) (tok : Token) :
  liveDocumented l → l !! i = Some tok → boundTo actor tok = true →
  is_Some (tok_document tok).
Proof.
  intros Hlive Ht Hb. apply Hlive; [apply list_elem_of_lookup; by exists i|].
  unfold boundTo in Hb. destruct (tok_actor tok); [by eexists|done].
Qed.

(** What the scene is after the handler has recorded. *)
Lemma handler_added_result (actor : Actor) (w : World) (v : Value) :
  hasInvisibility actor = Ret v →
  truthy v = true →
  liveDocumented (placeables w) →
  ∃ w',
    handleInvisibilityChange getVisibilityMap actor w = Ret w'
    ∧ skeleton <$> placeables w' = skeleton <$> placeables w
    ∧ (∀ i tok, placeables w !! i = Some tok → boundTo actor tok = true →
         placeables w' !! i
         = Some (recordEffect getVisibilityMap (placeables w) i tok).1)
    ∧ (∀ i tok, placeables w !! i = Some tok → boundTo actor tok = false →
         placeables w' !! i = Some tok).
Proof.
  intros Hv Htrue Hlive. unfold handleInvisibilityChange.
  destruct (forEach_effect (handleToken getVisibilityMap actor)
              (recordEffect getVisibilityMap) recordable) with
    (xs := positionsWhere (boundTo actor) 0 (placeables w)) (w := w)
    as (w' & calls & Hrun & Hsk & _ & Hout & Hin).
  - intros w0 i tok Ht Hr. rewrite (handleToken_added _ _ _ _ _ Hv Htrue).
    by apply record_effect.
  - apply recordEffect_ext.
  - apply recordable_ext.
  - apply recordEffect_skeleton.
  - apply recordEffect_calls.
  - apply NoDup_positionsWhere.
  - intros i (tok & Ht & Hb)%elem_of_bound_positions.
    split; [by eexists|]. split; [done|]. exists tok. split; [done|].
    by apply (bound_is_documented actor (placeables w) i).
  - exists w'. split; [done|]. split; [done|]. split.
    + intros i tok Ht Hb. apply Hin; [|done].
      apply elem_of_bound_positions. by exists tok.
    + intros i tok Ht Hb. destruct (Hout i) as [Hl _]; [|by rewrite Hl].
      intros (tok' & Ht' & Hb')%elem_of_bound_positions. congruence.
Qed.

(** What the scene is after the handler has cleared. *)
Lemma handler_removed_result (actor : Actor) (w : World) (v : Value) :
  hasInvisibility actor = Ret v →
  truthy v = false →
  (∀ i tok, placeables w !! i = Some tok → boundTo actor tok = true →
            is_Some (tok_document tok)) →
  ∃ w',
    handleInvisibilityChange getVisibilityMap actor w = Ret w'
    ∧ skeleton <$> placeables w' = skeleton <$> placeables w
    ∧ (∀ i tok, placeables w !! i = Some tok → boundTo actor tok = true →
         placeables w' !! i = Some (clearEffect (placeables w) i tok).1).
Proof.
  intros Hv Hfalse Hdoc. unfold handleInvisibilityChange.
  destruct (forEach_effect (handleToken getVisibilityMap actor)
              clearEffect documented) with
    (xs := positionsWhere (boundTo actor) 0 (placeables w)) (w := w)
    as (w' & calls & Hrun & Hsk & _ & _ & Hin).
  - intros w0 i tok Ht Hr. rewrite (handleToken_removed _ _ _ _ _ Hv Hfalse).
    by apply clear_effect.
  - done.
  - apply documented_ext.
  - apply clearEffect_skeleton.
  - apply clearEffect_calls.
  - apply NoDup_positionsWhere.
  - intros i (tok & Ht & Hb)%elem_of_bound_positions.
    split; [by eexists|]. exists tok. split; [done|]. by apply (Hdoc i).
  - exists w'. split; [done|]. split; [done|].
    intros i tok Ht Hb. apply Hin; [|done].
    apply elem_of_bound_positions. by exists tok.
Qed.

(** X18: after the handler has recorded for a token that had an observer,
    the resolver, for an observer that cannot see normally, answers from
    the record: "hidden" (until a sneak succeeds) for an observer that
    saw the token when it turned invisible, "undetected" without
    consulting the predicate for any other. *)
Theorem recorded_then_resolved (actor : Actor) (w : World) (v : Value) :
  hasInvisibility actor = Ret v →
  truthy v = true →
  liveDocumented (placeables w) →
  ∃ w',
    handleInvisibilityChange getVisibilityMap actor w = Ret w'
    ∧ ∀ i tok,
        placeables w !! i = Some tok → boundTo actor tok = true →
        idMissing (documentId (Some tok)) = false →
        (∃ k0, seenFrom (getVisibilityMap tok) (placeables w) i 0 k0) →
        ∃ tok',
          placeables w' !! i = Some tok'
          ∧ ∀ obs k, documentId obs = Some k → k ≠ "" →
              (seenFrom (getVisibilityMap tok) (placeables w) i 0 k →
               ∀ (p : SneakPredicate) (sneaked : bool),
                 p obs (Some tok') = Ret (VBool sneaked) →
                 (getInvisibilityState obs (Some tok') p (VBool false)).1
                 = Ret (if sneaked then "undetected" else "hidden"))
              ∧ (¬ seenFrom (getVisibilityMap tok) (placeables w) i 0 k →
                 ∀ p : SneakPredicate,
                   getInvisibilityState obs (Some tok') p (VBool false)
                   = (Ret "undetected", [])).
Proof.
  intros Hv Htrue Hlive.
  destruct (handler_added_result actor w v Hv Htrue Hlive)
    as (w' & Hrun & _ & Hin & _).
  exists w'. split; [done|]. intros i tok Ht Hb Hid Hsome.
  destruct (bound_is_documented actor _ i tok Hlive Ht Hb) as [d Hd].
  destruct (recordedFlags_spec getVisibilityMap (placeables w) i tok Hlive)
    as [Hdom Hval].
  apply (recordedFlags_nonempty getVisibilityMap _ i tok Hlive) in Hsome.
  specialize (Hin i tok Ht Hb). unfold recordEffect in Hin.
  rewrite Hd, bool_decide_eq_true_2 in Hin by done. simpl in Hin.
  eexists. split; [exact Hin|]. intros obs k Hk Hne.
  set (flags := recordedFlags getVisibilityMap (placeables w) i tok) in *.
  set (tok' := withDocument tok (setFlag "pf2e-visioner" "invisibility" flags d)).
  assert (flagEntryFor obs (Some tok') = flags !! k) as Hentry.
  { rewrite (flagEntryFor_document _ tok' _ k Hk eq_refl).
    by rewrite invisibilityNamespace_setFlag. }
  assert (∀ p, getInvisibilityState obs (Some tok') p (VBool false)
               = if truthy (from_option wasVisible VUndefined (flags !! k))
                 then exec p (AwaitSneak obs (Some tok') (λ sneaked,
                        if truthy sneaked then Resolved "undetected"
                        else Resolved "hidden"))
                 else (Ret "undetected", [])) as Hres.
  { intros p. rewrite <- Hentry. apply getInvisibilityState_by_entry.
    - by apply (idMissing_some _ k).
    - unfold tok'. by rewrite (idMissing_withDocument _ d).
    - done. }
  split.
  - intros Hseen p sneaked Hp. rewrite Hres.
    apply Hdom, elem_of_dom in Hseen as [e He].
    rewrite He, (Hval k e He). simpl from_option. cbn [truthy].
    rewrite (exec_await_resolves _ _ _ _ Hp). by destruct sneaked.
  - intros Hunseen p. rewrite Hres.
    destruct (flags !! k) as [e|] eqn:He; [|done].
    destruct Hunseen. apply Hdom, elem_of_dom. by eexists.
Qed.

(** X19: after the handler has cleared, the resolver, for an observer that
    cannot see normally, answers "undetected" for every token of the
    actor and every observer, without consulting the predicate. *)
Theorem cleared_then_undetected (actor : Actor) (w : World) (v : Value) :
  hasInvisibility actor = Ret v →
  truthy v = false →
  (∀ i tok, placeables w !! i = Some tok → boundTo actor tok = true →
            is_Some (tok_document tok)) →
  ∃ w',
    handleInvisibilityChange getVisibilityMap actor w = Ret w'
    ∧ ∀ i tok', placeables w' !! i = Some tok' → boundTo actor tok' = true →
        ∀ obs (p : SneakPredicate) (c : Value),
          truthy c = false →
          getInvisibilityState obs (Some tok') p c = (Ret "undetected", []).
Proof.
  intros Hv Hfalse Hdoc.
  destruct (handler_removed_result actor w v Hv Hfalse Hdoc)
    as (w' & Hrun & Hsk & Hin).
  exists w'. split; [done|]. intros i tok' Ht' Hb' obs p c Hc.
  destruct (skeleton_lookup _ _ _ _ Hsk Ht') as (tok & Ht & Hs).
  rewrite <- (skeleton_boundTo actor _ _ Hs) in Hb'.
  destruct (Hdoc i tok Ht Hb') as [d Hd].
  specialize (Hin i tok Ht Hb'). unfold clearEffect in Hin.
  rewrite Hd in Hin. simpl in Hin. rewrite Ht' in Hin. injection Hin as ->.
  unfold getInvisibilityState. rewrite getInvisibilityStateBody_consults.
  assert (consultsSneak obs
            (Some (withDocument tok (unsetFlag "pf2e-visioner" "invisibility" d))) c
          = false) as ->; [|done].
  unfold consultsSneak. rewrite Hc. simpl orb.
  assert (flagEntryFor obs
            (Some (withDocument tok (unsetFlag "pf2e-visioner" "invisibility" d)))
          = None) as ->; [|by rewrite andb_false_r].
  unfold flagEntryFor. destruct (documentId obs); [|done]. simpl.
  by rewrite invisibilityNamespace_unsetFlag.
Qed.

(** X22: recording again changes nothing: if the visibility map does not
    depend on the invisibility namespace, a second run of the handler on
    the still invisible actor recomputes the same records and leaves the
    scene as the first run left it. *)
Theorem recording_twice (actor : Actor) (w : World) (v : Value) :
  (∀ t t', sameButInvisibility t t' → getVisibilityMap t' = getVisibilityMap t) →
  hasInvisibility actor = Ret v →
  truthy v = true →
  liveDocumented (placeables w) →
  ∃ w' w'',
    handleInvisibilityChange getVisibilityMap actor w = Ret w'
    ∧ handleInvisibilityChange getVisibilityMap actor w' = Ret w''
    ∧ placeables w'' = placeables w'.
Proof.
  intros Hmap Hv Htrue Hlive.
  destruct (handler_added_result actor w v Hv Htrue Hlive)
    as (w' & Hrun & Hsk & Hin & Hout).
  assert (liveDocumented (placeables w')) as Hlive'.
  { by apply (liveDocumented_ext (placeables w)). }
  destruct (handler_added_result actor w' v Hv Htrue Hlive')
    as (w'' & Hrun' & Hsk' & Hin' & Hout').
  exists w', w''. split; [done|]. split; [done|].
  apply list_eq. intros i.
  destruct (placeables w' !! i) as [tok'|] eqn:Ht'.
  - destruct (skeleton_lookup _ _ _ _ Hsk Ht') as (tok & Ht & Hs).
    destruct (boundTo actor tok) eqn:Hb.
    + assert (boundTo actor tok' = true) as Hb'.
      { by rewrite <- (skeleton_boundTo actor _ _ Hs). }
      rewrite (Hin' i tok' Ht' Hb'). f_equal.
      rewrite (recordEffect_ext getVisibilityMap _ _ i tok' Hsk).
      specialize (Hin i tok Ht Hb). rewrite Ht' in Hin. injection Hin as Htok'.
      destruct (bound_is_documented actor _ i tok Hlive Ht Hb) as [d Hd].
      unfold recordEffect in *. rewrite Hd in Htok'.
      destruct (bool_decide (0 < size (recordedFlags getVisibilityMap (placeables w) i tok)))
        eqn:Hsize; simpl in Htok'; subst tok'.
      * assert (recordedFlags getVisibilityMap (placeables w) i
                  (withDocument tok
                     (setFlag "pf2e-visioner" "invisibility"
                        (recordedFlags getVisibilityMap (placeables w) i tok) d))
                = recordedFlags getVisibilityMap (placeables w) i tok) as Hsame.
        { unfold recordedFlags at 1 3. rewrite (Hmap tok); [done|].
          split; [done|]. simpl. rewrite Hd. apply setFlag_frame. }
        simpl. rewrite Hsame, Hsize. simpl. unfold withDocument. simpl.
        by rewrite setFlag_idempotent.
      * by rewrite Hd, Hsize.
    + assert (boundTo actor tok' = false) as Hb'.
      { by rewrite <- (skeleton_boundTo actor _ _ Hs). }
      by apply Hout'.
  - assert (length (placeables w'') = length (placeables w')) as Hlen.
    { by rewrite <- (length_fmap skeleton), Hsk', length_fmap. }
    apply lookup_ge_None. rewrite Hlen. by apply lookup_ge_None.
Qed.

End Composition.

(** ** Concrete instances of the further properties *)

Lemma scan_finds_slug_or_key_witness :
  conditions ghost = Some (conditionArray ["invisible"])
  ∧ conditionsCollectionHas "invisible" (Some ghost) = true.
Proof.
  split; [reflexivity|].
  apply (scan_finds_slug_or_key "invisible" ghost (conditionArray ["invisible"])
           [{| slug := Some "invisible"; key := None |}] eq_refl eq_refl).
  eexists. split; [apply list_elem_of_singleton; reflexivity|].
  left. reflexivity.
Defined.

Lemma scan_is_order_sensitive_witness :
  conditionsCollectionHas "blinded" (Some holedActor) = false.
Proof.
  destruct (scan_is_order_sensitive "blinded" holedActor
              {| coll_has := None;
                 coll_some := Some [None; Some {| slug := Some "blinded"; key := None |}] |}
              [] [Some {| slug := Some "blinded"; key := None |}] eq_refl)
    as [_ H].
  apply H; [reflexivity|]. intros x Hx. by apply not_elem_of_nil in Hx.
Defined.

Lemma getInvisibilityState_range_witness :
  (getInvisibilityState (Some stranger) (Some flaggedTarget)
     neverSneaked (VBool true)).1 = Ret "hidden"
  ∧ ("hidden" = "hidden" ∨ "hidden" = "undetected").
Proof.
  split; [reflexivity|].
  exact (getInvisibilityState_range (Some stranger) (Some flaggedTarget)
           neverSneaked (VBool true) "hidden" eq_refl).
Defined.

Lemma getInvisibilityState_rejects_witness :
  consultsSneak (Some watcher) (Some flaggedTarget) (VBool false) = true
  ∧ (getInvisibilityState (Some watcher) (Some flaggedTarget)
       notCallable (VBool false)).1 = Throw TypeError.
Proof.
  split; [reflexivity|].
  exact (getInvisibilityState_rejects (Some watcher) (Some flaggedTarget)
           notCallable (VBool false) TypeError eq_refl eq_refl).
Defined.

Lemma getInvisibilityState_sneak_wins_witness :
  (getInvisibilityState (Some watcher) (Some flaggedTarget)
     alwaysSneaked (VBool true)).1 = Ret "undetected".
Proof.
  exact (getInvisibilityState_sneak_wins (Some watcher) (Some flaggedTarget)
           alwaysSneaked (VBool true) (VBool true) eq_refl eq_refl).
Defined.

Lemma handler_leaves_other_tokens_witness :
  ∃ w', handleInvisibilityChange vanishedVisibility vanished vanishedScene = Ret w'
        ∧ ∀ i tok, placeables vanishedScene !! i = Some tok →
                   boundTo vanished tok = false →
                   placeables w' !! i = Some tok.
Proof.
  destruct (handleInvisibilityChange vanishedVisibility vanished vanishedScene)
    as [w'|e] eqn:Hrun; [|vm_compute in Hrun; discriminate Hrun].
  exists w'. split; [reflexivity|].
  exact (proj1 (handler_leaves_other_tokens vanishedVisibility vanished
                  vanishedScene w' Hrun)).
Defined.

Lemma handler_touches_namespace_only_witness :
  ∃ w', handleInvisibilityChange vanishedVisibility vanished vanishedScene = Ret w'
        ∧ Forall2 sameButInvisibility (placeables vanishedScene) (placeables w').
Proof.
  destruct (handleInvisibilityChange vanishedVisibility vanished vanishedScene)
    as [w'|e] eqn:Hrun; [|vm_compute in Hrun; discriminate Hrun].
  exists w'. split; [reflexivity|].
  exact (handler_touches_namespace_only vanishedVisibility vanished
           vanishedScene w' Hrun).
Defined.

Lemma handler_without_tokens_witness :
  hasInvisibility faultyMethodActor = Throw (HostError "hasCondition failed")
  ∧ handleInvisibilityChange (λ _, ∅) faultyMethodActor vanishedScene
    = Ret vanishedScene.
Proof.
  split; [reflexivity|].
  apply (handler_without_tokens (λ _, ∅) faultyMethodActor vanishedScene).
  apply Forall_forall. repeat constructor.
Defined.

Lemma handler_propagates_check_exception_witness :
  hasInvisibility faultyMethodActor = Throw (HostError "hasCondition failed")
  ∧ handleInvisibilityChange (λ _, ∅) faultyMethodActor faultyScene
    = Throw (HostError "hasCondition failed").
Proof.
  split; [reflexivity|].
  exact (handler_propagates_check_exception (λ _, ∅) faultyMethodActor
           faultyScene 1 (placed faultyMethodActor "token-1")
           (HostError "hasCondition failed") eq_refl eq_refl eq_refl).
Defined.

Lemma handler_check_short_circuits_witness :
  hasInvisibility halfFaultyActor = Ret (VBool true)
  ∧ probeCondition "invisible" (Some halfFaultyActor)
    = Throw (HostError "has failed").
Proof.
  destruct (handler_check_short_circuits halfFaultyActor (VBool true)
              eq_refl eq_refl) as [Hcheck Hprobe].
  split; [exact Hcheck|]. apply Hprobe. reflexivity.
Defined.

Lemma handler_check_versus_probe_witness :
  ∃ v b,
    hasInvisibility ghost = Ret v
    ∧ probeCondition "invisible" (Some ghost) = Ret (VBool b)
    ∧ (b = true ↔ truthy v = true ∨ scanReportsTrue "invisible" (Some ghost)).
Proof.
  exact (handler_check_versus_probe ghost VUndefined VUndefined eq_refl eq_refl).
Defined.

Lemma setInvisibilityFlags_read_back_witness :
  ∃ w' tok',
    setInvisibilityFlags 0 {[ "token-9" := {| wasVisible := VBool true |} ]}
      revealedScene = Ret w'
    ∧ placeables w' !! 0 = Some tok'
    ∧ readWasVisible (documentId (Some stranger)) (Some tok') = VBool true.
Proof.
  destruct (setInvisibilityFlags_read_back 0
              {[ "token-9" := {| wasVisible := VBool true |} ]}
              revealedScene watcher (emptyDocument "token-8") eq_refl eq_refl)
    as (w' & tok' & Hrun & Ht & _ & Hread).
  exists w', tok'. split; [exact Hrun|]. split; [exact Ht|].
  exact (Hread (Some stranger) "token-9" eq_refl).
Defined.

Lemma clearInvisibilityFlags_twice_witness :
  ∃ w1 w2,
    clearInvisibilityFlags 0 revealedScene = Ret w1
    ∧ clearInvisibilityFlags 0 w1 = Ret w2
    ∧ placeables w2 = placeables w1.
Proof.
  destruct (clearInvisibilityFlags 0 revealedScene) as [w1|e] eqn:Hrun;
    [|vm_compute in Hrun; discriminate Hrun].
  destruct (clearInvisibilityFlags_twice 0 revealedScene w1 Hrun)
    as (_ & w2 & Hrun2 & Hsame & _).
  exists w1, w2. split; [reflexivity|]. split; [exact Hrun2|exact Hsame].
Defined.

Lemma recorded_then_resolved_witness :
  hasInvisibility vanished = Ret (VBool true)
  ∧ ∃ w' tok',
      handleInvisibilityChange vanishedVisibility vanished vanishedScene = Ret w'
      ∧ placeables w' !! 0 = Some tok'
      ∧ (getInvisibilityState
           (Some (placed (bareActor "actor-15") "token-15")) (Some tok')
           neverSneaked (VBool false)).1 = Ret "hidden"
      ∧ (getInvisibilityState
           (Some (placed (bareActor "actor-15") "token-15")) (Some tok')
           alwaysSneaked (VBool false)).1 = Ret "undetected"
      ∧ getInvisibilityState
          (Some (placed (bareActor "actor-13") "token-13")) (Some tok')
          neverSneaked (VBool false) = (Ret "undetected", []).
Proof.
  split; [reflexivity|].
  destruct (recorded_then_resolved vanishedVisibility vanished vanishedScene
              (VBool true) eq_refl eq_refl) as (w' & Hrun & Hall).
  { apply liveDocumented_check. reflexivity. }
  destruct (Hall 0 (placed vanished "token-12") eq_refl eq_refl eq_refl
              (ex_intro _ "token-15" vanished_seen_by_15))
    as (tok' & Ht' & Hobs).
  exists w', tok'. split; [exact Hrun|]. split; [exact Ht'|].
  destruct (Hobs (Some (placed (bareActor "actor-15") "token-15")) "token-15"
              eq_refl) as [Hseen _]; [done|].
  destruct (Hobs (Some (placed (bareActor "actor-13") "token-13")) "token-13"
              eq_refl) as [_ Hunseen]; [done|].
  split; [exact (Hseen vanished_seen_by_15 neverSneaked false eq_refl)|].
  split; [exact (Hseen vanished_seen_by_15 alwaysSneaked true eq_refl)|].
  exact (Hunseen vanished_unseen_by_13 neverSneaked).
Defined.

Lemma cleared_then_undetected_witness :
  hasInvisibility revealed = Ret VUndefined
  ∧ ∃ w', handleInvisibilityChange (λ _, ∅) revealed revealedScene = Ret w'
          ∧ ∀ i tok', placeables w' !! i = Some tok' →
                      boundTo revealed tok' = true →
                      getInvisibilityState (Some watcher) (Some tok')
                        neverSneaked (VBool false)
                      = (Ret "undetected", []).
Proof.
  split; [reflexivity|].
  destruct (cleared_then_undetected (λ _, ∅) revealed revealedScene
              VUndefined eq_refl eq_refl) as (w' & Hrun & Hres).
  - intros i tok Ht _.
    destruct i as [|[|i]]; simpl in Ht; [| |discriminate Ht];
      injection Ht as <-; eexists; reflexivity.
  - exists w'. split; [exact Hrun|]. intros i tok' Ht' Hb'.
    exact (Hres i tok' Ht' Hb' (Some watcher) neverSneaked (VBool false) eq_refl).
Defined.

Lemma recording_twice_witness :
  ∃ w' w'',
    handleInvisibilityChange vanishedVisibility vanished vanishedScene = Ret w'
    ∧ handleInvisibilityChange vanishedVisibility vanished w' = Ret w''
    ∧ placeables w'' = placeables w'.
Proof.
  apply (recording_twice vanishedVisibility vanished vanishedScene (VBool true)).
  - intros t t' _. reflexivity.
  - reflexivity.
  - reflexivity.
  - apply liveDocumented_check. reflexivity.
Defined.
